(** * Dual Core Caleon: the verdict consensus pipeline

    A shallow embedding of the harmonizers
    ([Main_Core/left_hemisphere/gyro_harmonizer.py],
    [Main_Core/right_hemisphere/gyro_harmonizer.py],
    [Main_Core/Final_harmonizer.py]), of the synaptic resonator
    ([Main_Core/left_hemisphere/synaptic_resonator.py]), of the time oracle
    ([Main_Core/ISS_Brainstem.py]) with its users [Main_Core/Thinker.py] and
    [Main_Core/Task_Orchestrator.py], and the properties of the
    specification that concern them; then of the code around them: the
    speech pipeline ([Main_Core/Caleon_Voice_Pipeline.py],
    [Main_Core/articulation_layer.py]), the consent gate
    ([Main_Core/Intent_Consent.py]) and two reasoning layers
    ([Main_Core/left_hemisphere/Anterior_helix.py],
    [Main_Core/right_hemisphere/Echostack.py]). *)

From stdpp Require Import base tactics option list sorting strings gmap.
From Stdlib Require Import QArith Qabs Qminmax Qround Qpower Lqa.
From Stdlib Require Import DecimalString DecimalNat.

Close Scope Q_scope.

Set Default Proof Using "Type".

(** * Outcomes of a call

    A Python call returns a value or raises.  The third outcome, [Pending],
    is the model's reading of a loop that is still running when the random
    draws handed to it are used up: a call that is [Pending] on every list
    of draws never returns. *)

Inductive exn : Set := IndexError | ValueError | TypeError | AttributeError.

Inductive res (A : Type) : Type :=
  | Ok (a : A)
  | Raise (e : exn)
  | Pending.
Arguments Ok {A} a.
Arguments Raise {A} e.
Arguments Pending {A}.

(** State passing with the three outcomes; the state is kept whatever the
    outcome, as a Python object keeps the mutations made before a raise. *)
Definition M (S A : Type) : Type := S → res A * S.

#[global] Instance M_ret {S} : MRet (M S) := λ A a s, (Ok a, s).
#[global] Instance M_bind {S} : MBind (M S) := λ A B f m s,
  match m s with
  | (Ok a, s') => f a s'
  | (Raise e, s') => (Raise e, s')
  | (Pending, s') => (Pending, s')
  end.

Definition gets {S A} (f : S → A) : M S A := λ s, (Ok (f s), s).

(** [for cycle in range: body] where the body may [return]: [Some r] is
    the value returned from inside the loop, [None] the loop running to
    its end. *)
Fixpoint for_cycles {S R} (range : list nat) (body : nat → M S (option R))
    : M S (option R) :=
  match range with
  | [] => mret None
  | i :: range' =>
      r ← body i;
      match r with
      | Some x => mret (Some x)
      | None => for_cycles range' body
      end
  end.

(** * Random draws

    [random.choice(seq)] raises [IndexError] on an empty sequence and
    otherwise returns [seq[i]] for a position [i] of the generator's
    choosing; [random.sample(population, k)] raises [ValueError] when the
    population has fewer than [k] elements and otherwise returns the
    elements at [k] distinct positions.  One [draw] holds the positions the
    generator chooses in one iteration of the selection loop. *)

Record draw : Set := Draw { choice_index : nat; sample_indices : list nat }.

Definition random_choice (seq : list string) (i : nat) : res string :=
  match seq with
  | [] => Raise IndexError
  | _ => Ok (nth i seq EmptyString)
  end.

Definition random_sample (population : list string) (k : nat) (js : list nat)
    : res (list string) :=
  if decide (length population < k) then Raise ValueError
  else Ok ((λ j, nth j population EmptyString) <$> js).

(** The positions a generator can really choose. *)
Definition admissible (philosophers logic_seeds : list string) (d : draw) : Prop :=
  choice_index d < length philosophers ∧
  length (sample_indices d) = 5 ∧
  NoDup (sample_indices d) ∧
  Forall (λ j, j < length logic_seeds) (sample_indices d).

#[global] Instance admissible_dec philosophers logic_seeds d :
  Decision (admissible philosophers logic_seeds d).
Proof. unfold admissible. apply _. Defined.

(** [sorted] on strings: the order of [str] is the lexicographic order of
    the code points.  The order is total and antisymmetric, so every
    sorting algorithm returns the same list. *)
Definition str_le (s t : string) : Prop := String.leb s t = true.

#[global] Instance str_le_dec : RelDecision str_le.
Proof. intros s t. unfold str_le. apply _. Defined.

Definition sorted (l : list string) : list string := merge_sort str_le l.

(** * Unique seed-set selection

    [_pick_unique_seedset] is written three times in the source, with the
    same body, in [HarmonizerLeft], [HarmonizerRight] and [FinalHarmonizer]:

<<
    while True:
        philosopher = random.choice(self.vault.philosophers)
        logic_set = tuple(sorted(random.sample(self.vault.logic_seeds, 5)))
        combo = (philosopher, logic_set)
        if combo not in self.previous_sets:
            self.previous_sets.append(combo)
            return combo
>>

    [seedset_loop] is that loop on the two attributes it reads and the one
    it writes; it returns the outcome, the new [previous_sets] and the draws
    that are left.  Each class below lifts it to its own state under the
    source's name. *)

Definition combo : Type := string * list string.

Fixpoint seedset_loop (philosophers logic_seeds : list string)
    (previous_sets : list combo) (rng : list draw)
    : res combo * list combo * list draw :=
  match rng with
  | [] => (Pending, previous_sets, [])
  | d :: rng' =>
      match random_choice philosophers (choice_index d) with
      | Ok philosopher =>
          match random_sample logic_seeds 5 (sample_indices d) with
          | Ok sample =>
              let combo := (philosopher, sorted sample) in
              if decide (combo ∈ previous_sets)
              then seedset_loop philosophers logic_seeds previous_sets rng'
              else (Ok combo, previous_sets ++ [combo], rng')
          | Raise e => (Raise e, previous_sets, rng')
          | Pending => (Pending, previous_sets, rng')
          end
      | Raise e => (Raise e, previous_sets, rng')
      | Pending => (Pending, previous_sets, rng')
      end
  end.

(** The combo one draw stands for, when both lists are large enough. *)
Definition combo_of (philosophers logic_seeds : list string) (d : draw) : combo :=
  (nth (choice_index d) philosophers EmptyString,
   sorted ((λ j, nth j logic_seeds EmptyString) <$> sample_indices d)).

(** Every combo the generator can draw is in [previous_sets]. *)
Definition exhausted (philosophers logic_seeds : list string)
    (previous_sets : list combo) : Prop :=
  philosophers ≠ [] ∧ 5 ≤ length logic_seeds ∧
  ∀ d, admissible philosophers logic_seeds d →
       combo_of philosophers logic_seeds d ∈ previous_sets.

(** How many selections in a row the draws [rng] can serve: each unused
    combo met serves one selection and becomes used. *)
Fixpoint fresh_draws (philosophers logic_seeds : list string)
    (previous_sets : list combo) (rng : list draw) : nat :=
  match rng with
  | [] => 0
  | d :: rng' =>
      let c := combo_of philosophers logic_seeds d in
      if decide (c ∈ previous_sets)
      then fresh_draws philosophers logic_seeds previous_sets rng'
      else S (fresh_draws philosophers logic_seeds (previous_sets ++ [c]) rng')
  end.

(** * The harmonizers' collaborators and results *)

Inductive Status : Set := resolved | resolved_ollama | unresolved.

(** The string the source writes under ["status"]. *)
Definition status_str (s : Status) : string :=
  match s with
  | resolved => "resolved"
  | resolved_ollama => "resolved_ollama"
  | unresolved => "unresolved"
  end.

(** The duck-typed [vault]: two sequences of names, [evaluate], which may
    read and change the world outside the harmonizer, and the predicate
    [is_resolved]. *)
Record Vault {World Input Verdict : Type} : Type := {
  philosophers : list string;
  logic_seeds : list string;
  evaluate : Input → string → list string → World → Verdict * World;
  is_resolved : Verdict → bool
}.
Arguments Vault : clear implicits.

(** One call of [vault.evaluate]: the combo passed and the verdict returned. *)
Record CycleRecord {Verdict : Type} : Type := {
  cr_combo : combo;
  cr_verdict : Verdict
}.
Arguments CycleRecord : clear implicits.

(** The dict a harmonizer returns; [None] is a key the dict does not have. *)
Record HarmonizationResult {Verdict : Type} : Type := {
  source : string;
  verdict : Verdict;
  cycles : option nat;
  status : Status;
  ollama_model : option string
}.
Arguments HarmonizationResult : clear implicits.

(** * ISS_Brainstem.py: the time oracle *)

Module ISSBrainstem.
Section Defs.
(** [time_time] is [time.time()]: a reading of the wall clock. *)
Context {World Time : Type}.
Variable time_time : World → Time * World.

(** The attributes [_cycle] and [_last_ts]; [_lock] serialises the calls of
    [pulse], which the model runs one after the other. *)
Record t : Type := { _cycle : nat; _last_ts : Time }.

(** The string [f"PULSE-{ts:.6f}.{self._cycle}"], by its two components. *)
Record Pulse : Type := { pulse_ts : Time; pulse_cycle : nat }.

(** The string [f"SD-{year}.{day_of_year}.{fractional}"], a function of the
    clock reading it holds. *)
Record Stardate : Type := { sd_now : Time }.

Definition __init__ (w : World) : t * World :=
  let '(now, w) := time_time w in
  ({| _cycle := 0; _last_ts := now |}, w).

Definition unix (w : World) : Time * World := time_time w.

Definition pulse (self : t) (w : World) : Pulse * t * World :=
  let self := {| _cycle := _cycle self + 1; _last_ts := _last_ts self |} in
  let '(ts, w) := unix w in
  ({| pulse_ts := ts; pulse_cycle := _cycle self |}, self, w).

Definition stardate (w : World) : Stardate * World :=
  let '(now, w) := time_time w in
  ({| sd_now := now |}, w).

End Defs.
Arguments t : clear implicits.
Arguments Pulse : clear implicits.
Arguments Stardate : clear implicits.
End ISSBrainstem.

(** * Thinker.py: the meta-reasoner *)

Module Thinker.
Section Defs.
Context {World Time Verdict : Type}.
Variable time_time : World → Time * World.

(** [self.iss = ISSBrainstem()]: an oracle of the thinker's own. *)
Record t : Type := { iss : ISSBrainstem.t Time }.

Record ReflectionRecord : Type := {
  original : HarmonizationResult Verdict;
  reflection : string;
  confidence : Q;
  pulse : ISSBrainstem.Pulse Time;
  stardate : ISSBrainstem.Stardate Time
}.

Definition __init__ (w : World) : t * World :=
  let '(i, w) := ISSBrainstem.__init__ time_time w in
  ({| iss := i |}, w).

Definition reflect (merged_verdict : HarmonizationResult Verdict) (self : t)
    (w : World) : ReflectionRecord * t * World :=
  let '(p, i, w) := ISSBrainstem.pulse time_time (iss self) w in
  let '(sd, w) := ISSBrainstem.stardate time_time w in
  ({| original := merged_verdict;
      reflection := "Meta-analysis applied";
      confidence := (95 # 100)%Q;
      pulse := p;
      stardate := sd |},
   {| iss := i |}, w).

End Defs.
Arguments t : clear implicits.
Arguments ReflectionRecord : clear implicits.
End Thinker.

(** * gyro_harmonizer.py: the hemisphere harmonizers

    [HarmonizerLeft] and [HarmonizerRight] are the same class up to the
    string written under ["source"], here [hemisphere_source]. *)

Module Hemisphere.
Section Defs.
Context {World Input Verdict : Type}.
Variable of_str : string → Verdict.
Variable hemisphere_source : string.

(** The four attributes of the object, then what the run reads from
    outside it: the draws the generator is going to make, the world
    [vault.evaluate] acts on, and the calls of [vault.evaluate] made so
    far. *)
Record state : Type := {
  vault : Vault World Input Verdict;
  previous_sets : list combo;
  base_cycles : nat;
  conflict_cycles : nat;
  rng : list draw;
  world : World;
  cycle_log : list (CycleRecord Verdict)
}.

Definition __init__ (vault : Vault World Input Verdict) (rng : list draw)
    (world : World) : state :=
  {| vault := vault; previous_sets := []; base_cycles := 5;
     conflict_cycles := 5; rng := rng; world := world; cycle_log := [] |}.

Definition _pick_unique_seedset : M state combo := λ self,
  let '(r, previous_sets', rng') :=
    seedset_loop (philosophers (vault self)) (logic_seeds (vault self))
                 (previous_sets self) (rng self) in
  (r, {| vault := vault self; previous_sets := previous_sets';
         base_cycles := base_cycles self;
         conflict_cycles := conflict_cycles self;
         rng := rng'; world := world self; cycle_log := cycle_log self |}).

(** [self.vault.evaluate(distilled, philosopher, logic_set)] *)
Definition vault_evaluate (distilled : Input) (philosopher : string)
    (logic_set : list string) : M state Verdict := λ self,
  let '(verdict, world') :=
    evaluate (vault self) distilled philosopher logic_set (world self) in
  (Ok verdict,
   {| vault := vault self; previous_sets := previous_sets self;
      base_cycles := base_cycles self;
      conflict_cycles := conflict_cycles self;
      rng := rng self; world := world';
      cycle_log := cycle_log self ++
        [{| cr_combo := (philosopher, logic_set); cr_verdict := verdict |}] |}).

(** The body of the first loop, [for cycle in range(1, self.base_cycles + 1)];
    [Some result] is its [return result]. *)
Definition primary_cycle (distilled : Input) (cycle : nat)
    : M state (option (HarmonizationResult Verdict)) :=
  '(philosopher, logic_set) ← _pick_unique_seedset;
  verdict ← vault_evaluate distilled philosopher logic_set;
  v ← gets vault;
  if is_resolved v verdict
  then mret (Some {| source := hemisphere_source; verdict := verdict;
                     cycles := Some cycle; status := resolved;
                     ollama_model := None |})
  else mret None.

(** The body of the second loop,
    [for conflict in range(1, self.conflict_cycles + 1)]. *)
Definition conflict_cycle (distilled : Input) (conflict : nat)
    : M state (option (HarmonizationResult Verdict)) :=
  '(philosopher, logic_set) ← _pick_unique_seedset;
  verdict ← vault_evaluate distilled philosopher logic_set;
  v ← gets vault;
  if is_resolved v verdict
  then base ← gets base_cycles;
       mret (Some {| source := hemisphere_source; verdict := verdict;
                     cycles := Some (base + conflict); status := resolved;
                     ollama_model := None |})
  else mret None.

Definition harmonize (distilled : Input)
    : M state (HarmonizationResult Verdict) :=
  (* ---- Primary cycles ---- *)
  base ← gets base_cycles;
  returned ← for_cycles (seq 1 base) (primary_cycle distilled);
  match returned with
  | Some result => mret result
  | None =>
    (* ---- Conflict cycles ---- *)
    conflicts ← gets conflict_cycles;
    returned ← for_cycles (seq 1 conflicts) (conflict_cycle distilled);
    match returned with
    | Some result => mret result
    | None =>
      (* ---- No resolution ---- *)
      base ← gets base_cycles;
      conflicts ← gets conflict_cycles;
      mret {| source := hemisphere_source; verdict := of_str "UNRESOLVED";
              cycles := Some (base + conflicts); status := unresolved;
              ollama_model := None |}
    end
  end.

End Defs.
Arguments state : clear implicits.
End Hemisphere.

Definition HarmonizerLeft_harmonize {World Input Verdict : Type}
    (of_str : string → Verdict) :=
  @Hemisphere.harmonize World Input Verdict of_str "Left_Hemisphere".

Definition HarmonizerRight_harmonize {World Input Verdict : Type}
    (of_str : string → Verdict) :=
  @Hemisphere.harmonize World Input Verdict of_str "Right_Hemisphere".

(** * Final_harmonizer.py and ollama_engine.py *)

Module Final.
Section Defs.
Context {World Time Distilled Verdict : Type}.
Variable of_str : string → Verdict.
Variable time_time : World → Time * World.

(** The dict [fused] passed to [vault.evaluate]. *)
Record Fused : Type := {
  left : Verdict;
  right : Verdict;
  distilled : Distilled
}.

(** The f-string [conflict_prompt], by the five values it formats. *)
Record Prompt : Type := {
  prompt_left : Verdict;
  prompt_right : Verdict;
  prompt_philosopher : string;
  prompt_logic_set : list string;
  prompt_conflict : nat
}.

(** What [asyncio.run(self.ollama.query(prompt))] gives: the dict
    [OllamaEngine.query] builds on an HTTP 200, with its ["response"] and
    ["model"]; the dict with ["success"] false it builds on any other
    status, on a timeout and on any exception of its own; or an exception
    out of [asyncio.run] itself. *)
Inductive QueryOutcome : Type :=
  | QuerySuccess (response model : string)
  | QueryFailure
  | QueryRaised.

(** The local model behind [OllamaEngine]: [health_check] and [query] go
    over the network, which is part of the world. *)
Record OllamaEngine : Type := {
  health_check : World → bool * World;
  query : Prompt → World → QueryOutcome * World
}.

Record state : Type := {
  vault : Vault World Fused Verdict;
  previous_sets : list combo;
  primary_cycles : nat;
  conflict_cycles : nat;
  thinker : Thinker.t Time;
  ollama : OllamaEngine;
  rng : list draw;
  world : World;
  cycle_log : list (CycleRecord Verdict)
}.

Definition set_world (w : World) (self : state) : state :=
  {| vault := vault self; previous_sets := previous_sets self;
     primary_cycles := primary_cycles self;
     conflict_cycles := conflict_cycles self;
     thinker := thinker self; ollama := ollama self;
     rng := rng self; world := w; cycle_log := cycle_log self |}.

Definition __init__ (vault : Vault World Fused Verdict)
    (ollama : OllamaEngine) (rng : list draw) (world : World) : state :=
  let '(th, world) := Thinker.__init__ time_time world in
  {| vault := vault; previous_sets := []; primary_cycles := 5;
     conflict_cycles := 5; thinker := th; ollama := ollama;
     rng := rng; world := world; cycle_log := [] |}.

Definition _pick_unique_seedset : M state combo := λ self,
  let '(r, previous_sets', rng') :=
    seedset_loop (philosophers (vault self)) (logic_seeds (vault self))
                 (previous_sets self) (rng self) in
  (r, {| vault := vault self; previous_sets := previous_sets';
         primary_cycles := primary_cycles self;
         conflict_cycles := conflict_cycles self;
         thinker := thinker self; ollama := ollama self;
         rng := rng'; world := world self; cycle_log := cycle_log self |}).

Definition vault_evaluate (fused : Fused) (philosopher : string)
    (logic_set : list string) : M state Verdict := λ self,
  let '(verdict, world') :=
    evaluate (vault self) fused philosopher logic_set (world self) in
  (Ok verdict,
   {| vault := vault self; previous_sets := previous_sets self;
      primary_cycles := primary_cycles self;
      conflict_cycles := conflict_cycles self;
      thinker := thinker self; ollama := ollama self;
      rng := rng self; world := world';
      cycle_log := cycle_log self ++
        [{| cr_combo := (philosopher, logic_set); cr_verdict := verdict |}] |}).

(** [self.thinker.reflect(result)] *)
Definition thinker_reflect (result : HarmonizationResult Verdict)
    : M state (Thinker.ReflectionRecord Time Verdict) := λ self,
  let '(refined, th, world') :=
    Thinker.reflect time_time result (thinker self) (world self) in
  (Ok refined,
   {| vault := vault self; previous_sets := previous_sets self;
      primary_cycles := primary_cycles self;
      conflict_cycles := conflict_cycles self;
      thinker := th; ollama := ollama self;
      rng := rng self; world := world'; cycle_log := cycle_log self |}).

(** [self.ollama.health_check()] *)
Definition ollama_health_check : M state bool := λ self,
  let '(healthy, world') := health_check (ollama self) (world self) in
  (Ok healthy, set_world world' self).

(** [asyncio.run(self.ollama.query(conflict_prompt))] *)
Definition ollama_query (conflict_prompt : Prompt) : M state QueryOutcome :=
  λ self,
  let '(ollama_result, world') :=
    query (ollama self) conflict_prompt (world self) in
  (Ok ollama_result, set_world world' self).

(** The body of the first loop,
    [for cycle in range(1, self.primary_cycles + 1)]; [Some refined] is its
    [return self.thinker.reflect(result)]. *)
Definition primary_cycle (fused : Fused) (cycle : nat)
    : M state (option (Thinker.ReflectionRecord Time Verdict)) :=
  '(philosopher, logic_set) ← _pick_unique_seedset;
  verdict ← vault_evaluate fused philosopher logic_set;
  v ← gets vault;
  if is_resolved v verdict
  then refined ← thinker_reflect
         {| source := "Final_Core"; verdict := verdict;
            cycles := Some cycle; status := resolved;
            ollama_model := None |};
       mret (Some refined)
  else mret None.

(** The [try] block of a conflict cycle, entered when the verdict is not
    resolved and Ollama answers the health check: [Some refined] is its
    [return], [None] leaving it, by a query without success or by
    [except Exception]. *)
Definition ollama_enhancement (left_verdict right_verdict : Verdict)
    (philosopher : string) (logic_set : list string) (conflict : nat)
    : M state (option (Thinker.ReflectionRecord Time Verdict)) :=
  ollama_result ← ollama_query
    {| prompt_left := left_verdict; prompt_right := right_verdict;
       prompt_philosopher := philosopher; prompt_logic_set := logic_set;
       prompt_conflict := conflict |};
  match ollama_result with
  | QuerySuccess response model =>
      (* Use Ollama reasoning as enhanced verdict *)
      primary ← gets primary_cycles;
      refined ← thinker_reflect
        {| source := "Final_Core_Ollama"; verdict := of_str response;
           cycles := Some (primary + conflict); status := resolved_ollama;
           ollama_model := Some model |};
      mret (Some refined)
  | QueryFailure => mret None
  | QueryRaised => mret None
  end.

(** The body of the second loop,
    [for conflict in range(1, self.conflict_cycles + 1)]. *)
Definition conflict_cycle (left_verdict right_verdict : Verdict)
    (fused : Fused) (conflict : nat)
    : M state (option (Thinker.ReflectionRecord Time Verdict)) :=
  '(philosopher, logic_set) ← _pick_unique_seedset;
  verdict ← vault_evaluate fused philosopher logic_set;
  v ← gets vault;
  (* Try Ollama-enhanced resolution for conflicts *)
  enhanced ←
    (if negb (is_resolved v verdict)
     then healthy ← ollama_health_check;
          if healthy : bool
          then ollama_enhancement left_verdict right_verdict
                 philosopher logic_set conflict
          else mret None
     else mret None);
  match enhanced with
  | Some refined => mret (Some refined)
  | None =>
    if is_resolved v verdict
    then primary ← gets primary_cycles;
         refined ← thinker_reflect
           {| source := "Final_Core"; verdict := verdict;
              cycles := Some (primary + conflict); status := resolved;
              ollama_model := None |};
         mret (Some refined)
    else mret None
  end.

Definition harmonize (left_verdict right_verdict : Verdict)
    (distilled : Distilled)
    : M state (Thinker.ReflectionRecord Time Verdict) :=
  let fused := {| left := left_verdict; right := right_verdict;
                  distilled := distilled |} in
  (* Primary cycles *)
  primary ← gets primary_cycles;
  returned ← for_cycles (seq 1 primary) (primary_cycle fused);
  match returned with
  | Some refined => mret refined
  | None =>
    (* Conflict cycles with Ollama enhancement *)
    conflicts ← gets conflict_cycles;
    returned ← for_cycles (seq 1 conflicts)
                 (conflict_cycle left_verdict right_verdict fused);
    match returned with
    | Some refined => mret refined
    | None =>
      (* No resolution: send back to Synaptic Resonator *)
      thinker_reflect
        {| source := "Final_Core";
           verdict := of_str "UNRESOLVED_RETURN_TO_RESONATOR";
           cycles := None; status := unresolved; ollama_model := None |}
    end
  end.

End Defs.
Arguments state : clear implicits.
Arguments Fused : clear implicits.
Arguments Prompt : clear implicits.
Arguments OllamaEngine : clear implicits.
End Final.

(** * Task_Orchestrator.py: the task queue *)

Module TaskOrchestrator.
Section Defs.
Context {World Time Any : Type}.
Variable time_time : World → Time * World.

(** A value stored in an item: a pulse stamped by the orchestrator, or
    anything else the caller put there. *)
Inductive value : Type :=
  | PulseValue (p : ISSBrainstem.Pulse Time)
  | OtherValue (a : Any).

(** An item is a [dict] with string keys. *)
Local Abbreviation item := (gmap string value).

(** The attributes [__init__] assigns: [self.iss = ISSBrainstem()] and
    [self.queue = deque()]. *)
Record t : Type := { iss : ISSBrainstem.t Time; queue : list item }.

(** The functions the class body defines. *)
Inductive method : Set := def_queue | def_next | def_mark_done.

Inductive attribute : Type :=
  | IssObject (i : ISSBrainstem.t Time)
  | DequeObject (q : list item)
  | FunctionObject (m : method).

Inductive returned : Type :=
  | ReturnedPulse (p : ISSBrainstem.Pulse Time)
  | ReturnedItem (i : item).

Definition __init__ (w : World) : t * World :=
  let '(i, w) := ISSBrainstem.__init__ time_time w in
  ({| iss := i; queue := [] |}, w).

(** The instance's [__dict__] and the class's. *)
Definition instance_dict (self : t) (name : string) : option attribute :=
  if decide (name = "iss") then Some (IssObject (iss self))
  else if decide (name = "queue") then Some (DequeObject (queue self))
  else None.

Definition class_dict (name : string) : option attribute :=
  if decide (name = "queue") then Some (FunctionObject def_queue)
  else if decide (name = "next") then Some (FunctionObject def_next)
  else if decide (name = "mark_done") then Some (FunctionObject def_mark_done)
  else None.

(** Attribute lookup [self.name]: a plain function of the class is not a
    data descriptor, so an entry of the instance's [__dict__] under the
    same name comes first. *)
Definition getattr (self : t) (name : string) : option attribute :=
  match instance_dict self name with
  | Some a => Some a
  | None => class_dict name
  end.

(** The body of [def queue(self, item)]. *)
Definition queue_body (i : item) (self : t) (w : World)
    : res returned * t * World :=
  let '(pulse, iss', w) := ISSBrainstem.pulse time_time (iss self) w in
  let i := <["queued_at" := PulseValue pulse]> i in
  (Ok (ReturnedPulse pulse), {| iss := iss'; queue := queue self ++ [i] |}, w).

(** The body of [def next(self)]. *)
Definition next_body (self : t) (w : World) : res returned * t * World :=
  match queue self with
  | [] => (Ok (ReturnedItem ∅), self, w)
  | i :: rest =>
      let '(pulse, iss', w) := ISSBrainstem.pulse time_time (iss self) w in
      (Ok (ReturnedItem (<["executed_at" := PulseValue pulse]> i)),
       {| iss := iss'; queue := rest |}, w)
  end.

(** The body of [def mark_done(self, item)]. *)
Definition mark_done_body (i : item) (self : t) (w : World)
    : res returned * t * World :=
  let '(pulse, iss', w) := ISSBrainstem.pulse time_time (iss self) w in
  (Ok (ReturnedPulse pulse), {| iss := iss'; queue := queue self |}, w).

(** Applying a function object to [self] and the arguments of the call. *)
Definition apply (m : method) (args : list item) (self : t) (w : World)
    : res returned * t * World :=
  match m, args with
  | def_queue, [i] => queue_body i self w
  | def_next, [] => next_body self w
  | def_mark_done, [i] => mark_done_body i self w
  | _, _ => (Raise TypeError, self, w)
  end.

(** The call [self.name(args)]: look the attribute up, then call what was
    found; a deque and an [ISSBrainstem] are not callable. *)
Definition call (name : string) (args : list item) (self : t) (w : World)
    : res returned * t * World :=
  match getattr self name with
  | Some (FunctionObject m) => apply m args self w
  | Some (DequeObject _) => (Raise TypeError, self, w)
  | Some (IssObject _) => (Raise TypeError, self, w)
  | None => (Raise AttributeError, self, w)
  end.

End Defs.
Arguments t : clear implicits.
Arguments value : clear implicits.
Arguments returned : clear implicits.
End TaskOrchestrator.

(** * synaptic_resonator.py: the synaptic resonator

    Python floats are modelled as exact rationals: the properties below are
    those of the arithmetic the source writes, without the rounding of
    binary64. *)

Module Resonator.
Local Open Scope Q_scope.

(** A vault seed: the dict read from [vaults/core/seed/<name>.json]. *)
Abbreviation Seed := (gmap string Q).

Record Synapse : Type := { mode : string; bias : Q; mod_ : Q }.

(** [Synapse.__init__]: [vault_seed.get("bias", 0.0)] and
    [vault_seed.get("mod", 0.02)]. *)
Definition Synapse__init__ (mode : string) (vault_seed : Seed) : Synapse :=
  {| mode := mode;
     bias := default 0 (vault_seed !! "bias"%string);
     mod_ := default (2 # 100) (vault_seed !! "mod"%string) |}.

(** [random.uniform(a, b)] is [a + (b - a) * random()]; [r] is the outcome
    of [random()], a number of the interval from 0 to 1. *)
Definition uniform (a b r : Q) : Q := a + (b - a) * r.

Definition fire (self : Synapse) (incoming r : Q) : Q :=
  if decide (mode self = "intuition"%string)
  then incoming * (1 + bias self + uniform (- mod_ self) (mod_ self) r)
  else if decide (mode self = "induction"%string)
  then incoming * (1 + uniform (- mod_ self * 2) (mod_ self * 2) r)
  else if decide (mode self = "deduction"%string)
  then incoming * (1 + uniform (- mod_ self) (mod_ self / 2) r)
  else incoming.

(** The builtin [sum]: a left fold from 0. *)
Definition sum (values : list Q) : Q := foldl Qplus 0 values.

(** [PyramidNode.aggregate] *)
Definition aggregate (values : list Q) : Q :=
  match values with
  | [] => 1
  | _ => sum values / inject_Z (Z.of_nat (length values))
  end.

(** The slice [values[a:b]] for [0 <= a <= b]. *)
Definition slice {A} (a b : nat) (values : list A) : list A :=
  take (b - a) (drop a values).

(** The dict [out] of [_fan_pass], by its six keys. *)
Record NodeOutputs : Type := {
  out6 : Q; out5 : Q; out4 : Q; out3 : Q; out2 : Q; out1 : Q
}.

Definition _fan_pass (values : list Q) : NodeOutputs :=
  let slices6 := slice 0 780 values in
  let slices5 := slice 780 1560 values in
  let slices4 := slice 1560 2340 values in
  let o6 := aggregate slices6 in
  let o5 := aggregate slices5 in
  let o4 := aggregate slices4 in
  (* mid-tier nodes *)
  let o3 := aggregate [o4; o5; o6] in
  let o2 := aggregate [o4; o5; o6] in
  (* final node (1) *)
  let o1 := aggregate [o2; o3] in
  {| out6 := o6; out5 := o5; out4 := o4; out3 := o3; out2 := o2; out1 := o1 |}.

(** [_build_synapses]: 780 rounds appending one synapse of each mode, then
    [random.shuffle], an in-place permutation of the generator's choosing. *)
Definition _build_synapses (intuitive_seed inductive_seed deductive_seed : Seed)
    (shuffle : list Synapse → list Synapse) : list Synapse :=
  shuffle (concat (replicate 780
    [Synapse__init__ "intuition" intuitive_seed;
     Synapse__init__ "induction" inductive_seed;
     Synapse__init__ "deduction" deductive_seed])).

Record SynapticResonator : Type := {
  hemisphere : string;
  intuitive_seed : Seed;
  inductive_seed : Seed;
  deductive_seed : Seed;
  synapses : list Synapse;
  ref_count : nat
}.

(** [SynapticResonator.__init__]; [read_seed] is [VaultAPI.read_seed]. *)
Definition __init__ (hemisphere : string) (read_seed : string → Seed)
    (shuffle : list Synapse → list Synapse) : SynapticResonator :=
  let intuitive := read_seed "seed_spinoza"%string in
  let inductive := read_seed "seed_hume"%string in
  let deductive := read_seed "seed_kant"%string in
  {| hemisphere := hemisphere;
     intuitive_seed := intuitive;
     inductive_seed := inductive;
     deductive_seed := deductive;
     synapses := _build_synapses intuitive inductive deductive shuffle;
     ref_count := 0 |}.

(** What [resonate] computes before it asks Ollama for an annotation,
    stamps the trace and logs it, none of which changes these values:
    [random i] is the outcome of [random()] in the firing of the synapse at
    position [i]. *)
Record Resonance : Type := {
  input_value : Q;
  node_outputs : NodeOutputs;
  synaptic_verdict : Q
}.

Definition resonate (self : SynapticResonator) (stimulus_value : Q)
    (random : nat → Q) : Resonance :=
  let fired := imap (λ i syn, fire syn stimulus_value (random i)) (synapses self) in
  let pyramid_out := _fan_pass fired in
  {| input_value := stimulus_value;
     node_outputs := pyramid_out;
     synaptic_verdict := out1 pyramid_out |}.

(** The largest magnitude of the perturbation a synapse of each mode can
    apply; for a bias and a mod that are not negative these are
    [bias + mod], [2 * mod] and [mod]. *)
Definition maxPerturbation (self : SynapticResonator) : Q :=
  Qmax (Qabs (default 0 (intuitive_seed self !! "bias"%string))
        + Qabs (default (2 # 100) (intuitive_seed self !! "mod"%string)))
    (Qmax (2 * Qabs (default (2 # 100) (inductive_seed self !! "mod"%string)))
          (Qabs (default (2 # 100) (deductive_seed self !! "mod"%string)))).

End Resonator.

(** * ISS_Brainstem.py: drift detection, stardates and anchors

    The clock reading of [time.time()] is a float, modelled as an exact
    rational number of seconds. *)

Module ISSBrainstemRest.
Section Defs.
Context {World : Type}.
Variable time_time : World → Q * World.
(** [sha256_hexdigest s] is [hashlib.sha256(s.encode()).hexdigest()]. *)
Variable sha256_hexdigest : string → string.

(** [detect_drift(threshold_seconds)] *)
Definition detect_drift (threshold_seconds : Q) (self : ISSBrainstem.t Q)
    (w : World) : bool * ISSBrainstem.t Q * World :=
  let '(now, w) := time_time w in
  let delta := Qabs (now - ISSBrainstem._last_ts self) in
  (negb (Qle_bool delta threshold_seconds),
   {| ISSBrainstem._cycle := ISSBrainstem._cycle self;
      ISSBrainstem._last_ts := now |}, w).

(** The default of [threshold_seconds]. *)
Definition default_threshold : Q := 250 # 1000.




(** [digest(data)] *)
Definition digest (data : string) : string := sha256_hexdigest data.

(** [sep.join(fields)] *)
Fixpoint join (sep : string) (fields : list string) : string :=
  match fields with
  | [] => ""
  | [field] => field
  | field :: fields => field +:+ sep +:+ join sep fields
  end.

(** [anchor_state], on the tuple of its arguments *)
Definition anchor_state (fields : list string) : string :=
  let joined := join "|" fields in
  sha256_hexdigest joined.

(** A call of one of the methods that read the clock, and what it
    returns. *)
Inductive call : Type :=
  | CallUnix
  | CallPulse
  | CallStardate
  | CallDetectDrift (threshold_seconds : Q).

Inductive reply : Type :=
  | ReplyUnix (now : Q)
  | ReplyPulse (p : ISSBrainstem.Pulse Q)
  | ReplyStardate (sd : ISSBrainstem.Stardate Q)
  | ReplyDrift (drift : bool).

Definition do_call (c : call) (self : ISSBrainstem.t Q) (w : World)
    : reply * ISSBrainstem.t Q * World :=
  match c with
  | CallUnix =>
      let '(now, w) := ISSBrainstem.unix time_time w in (ReplyUnix now, self, w)
  | CallPulse =>
      let '(p, self, w) := ISSBrainstem.pulse time_time self w in
      (ReplyPulse p, self, w)
  | CallStardate =>
      let '(sd, w) := ISSBrainstem.stardate time_time w in
      (ReplyStardate sd, self, w)
  | CallDetectDrift threshold_seconds =>
      let '(drift, self, w) := detect_drift threshold_seconds self w in
      (ReplyDrift drift, self, w)
  end.

(** A sequence of calls on one instance, one after the other. *)
Fixpoint do_calls (cs : list call) (self : ISSBrainstem.t Q) (w : World)
    : list reply * ISSBrainstem.t Q * World :=
  match cs with
  | [] => ([], self, w)
  | c :: cs =>
      let '(r, self, w) := do_call c self w in
      let '(rs, self, w) := do_calls cs self w in
      (r :: rs, self, w)
  end.

End Defs.

(** The cycles of the pulses among some replies, in order. *)
Definition pulse_cycles (rs : list reply) : list nat :=
  omap (λ r, match r with
             | ReplyPulse p => Some (ISSBrainstem.pulse_cycle p)
             | _ => None
             end) rs.

Definition is_pulse (c : call) : bool :=
  match c with CallPulse => true | _ => false end.

Definition is_detect_drift (c : call) : bool :=
  match c with CallDetectDrift _ => true | _ => false end.

End ISSBrainstemRest.

(** * Task_Orchestrator.py: sequences of calls *)

Module TaskOrchestratorRuns.
Section Defs.
Context {World Time Any : Type}.
Variable time_time : World → Time * World.
Local Abbreviation item := (gmap string (TaskOrchestrator.value Time Any)).

(** Calls [self.name(args)] on one orchestrator, one after the other. *)
Fixpoint calls (cs : list (string * list item))
    (self : TaskOrchestrator.t Time Any) (w : World)
    : list (res (TaskOrchestrator.returned Time Any))
      * TaskOrchestrator.t Time Any * World :=
  match cs with
  | [] => ([], self, w)
  | (name, args) :: cs =>
      let '(r, self, w) := TaskOrchestrator.call time_time name args self w in
      let '(rs, self, w) := calls cs self w in
      (r :: rs, self, w)
  end.

(** [self.next()] called [n] times. *)
Fixpoint drain (n : nat) (self : TaskOrchestrator.t Time Any) (w : World)
    : list (res (TaskOrchestrator.returned Time Any))
      * TaskOrchestrator.t Time Any * World :=
  match n with
  | 0 => ([], self, w)
  | S n =>
      let '(r, self, w) := TaskOrchestrator.call time_time "next" [] self w in
      let '(rs, self, w) := drain n self w in
      (r :: rs, self, w)
  end.

End Defs.
End TaskOrchestratorRuns.

(** ** The vault files of the resonator

    [VaultAPI] as [synaptic_resonator.py] defines it when [core.vault_api]
    is not installed, and [SynapticResonator._log]. *)

Module ResonatorLog.
Import Resonator Stdlib.Strings.Ascii.

(** [str(n)] for a natural number. *)
Definition str (n : nat) : string := NilZero.string_of_uint (Nat.to_uint n).

(** [s.zfill(width)] for a string of digits. *)
Fixpoint zeros (k : nat) (s : string) : string :=
  match k with
  | 0 => s
  | S k => String "0"%char (zeros k s)
  end.

Definition zfill (width : nat) (s : string) : string :=
  zeros (width - String.length s) s.

(** The format [{n:06d}] of a natural number. *)
Definition format_06d (n : nat) : string := zfill 6 (str n).

Definition seed_path (name : string) : string :=
  "vaults/core/seed/" +:+ name +:+ ".json".

Definition reflection_path (name : string) : string :=
  "vaults/core/reflection/" +:+ name +:+ ".json".

(** [VaultAPI.read_seed]: the seed files hold their parsed content. *)
Definition read_seed (seed_files : gmap string Seed) (name : string) : Seed :=
  default ∅ (seed_files !! seed_path name).

Section Log.
Context {Data : Type}.

(** [VaultAPI.write_reflection]: [write_text] replaces the content of the
    file; the directory of the reflections exists. *)
Definition write_reflection (name : string) (data : Data)
    (files : gmap string Data) : gmap string Data :=
  <[reflection_path name := data]> files.

Definition rid (hemisphere : string) (ref_count : nat) : string :=
  hemisphere +:+ "_syn_res_" +:+ format_06d ref_count.

(** [SynapticResonator._log] *)
Definition _log (data : Data) (self : SynapticResonator)
    (files : gmap string Data) : SynapticResonator * gmap string Data :=
  let files := write_reflection (rid (hemisphere self) (ref_count self))
                 data files in
  ({| hemisphere := hemisphere self;
      intuitive_seed := intuitive_seed self;
      inductive_seed := inductive_seed self;
      deductive_seed := deductive_seed self;
      synapses := synapses self;
      ref_count := ref_count self + 1 |}, files).

(** Calls of [_log] in a row, one for each trace. *)
Fixpoint logs (traces : list Data) (self : SynapticResonator)
    (files : gmap string Data) : SynapticResonator * gmap string Data :=
  match traces with
  | [] => (self, files)
  | data :: traces =>
      let '(self, files) := _log data self files in
      logs traces self files
  end.
End Log.
End ResonatorLog.

(** * articulation_layer.py: the vocal interpreter

    A character is a code unit of the string; [isspace] tells the
    characters [str.strip()] removes. *)

Module Articulator.
Import Stdlib.Strings.Ascii.

(** [s.lstrip(chars)], [s.rstrip(chars)] and [s.strip(chars)], for the set
    of characters [chars]. *)
Fixpoint lstrip (chars : ascii → bool) (s : string) : string :=
  match s with
  | EmptyString => EmptyString
  | String c rest => if chars c then lstrip chars rest else s
  end.

Fixpoint rstrip (chars : ascii → bool) (s : string) : string :=
  match s with
  | EmptyString => EmptyString
  | String c rest =>
      match rstrip chars rest with
      | EmptyString => if chars c then EmptyString else String c EmptyString
      | kept => String c kept
      end
  end.

Definition strip (chars : ascii → bool) (s : string) : string :=
  rstrip chars (lstrip chars s).

Fixpoint last_char (s : string) : option ascii :=
  match s with
  | EmptyString => None
  | String c EmptyString => Some c
  | String _ rest => last_char rest
  end.

(** [s.endswith(suffixes)] for suffixes of one character each. *)
Definition endswith (suffixes : list ascii) (s : string) : bool :=
  match last_char s with
  | Some c => bool_decide (c ∈ suffixes)
  | None => false
  end.

(** The double quote and the single quote. *)
Definition double_quote : ascii := ascii_of_nat 34.
Definition single_quote : ascii := "'"%char.

(** The values the pipeline hands to the articulator. *)
#[local] Unset Elimination Schemes.
Inductive value {Time Verdict : Type} : Type :=
  | StrValue (s : string)
  | IntValue (n : nat)
  | FloatValue (q : Q)
  | VerdictValue (v : Verdict)
  | PulseValue (p : ISSBrainstem.Pulse Time)
  | StardateValue (sd : ISSBrainstem.Stardate Time)
  | DictValue (items : list (string * value)).
#[local] Set Elimination Schemes.
Arguments value : clear implicits.

(** [d.get(key)] on the items of a dict, whose keys are different. *)
Fixpoint get {A} (key : string) (items : list (string * A)) : option A :=
  match items with
  | [] => None
  | (k, v) :: items => if decide (k = key) then Some v else get key items
  end.

(** The prompt of [articulate], by the two texts it puts into the
    template. *)
Record Prompt : Type := { verdict_text : string; context_text : string }.

Record Articulation : Type := {
  spoken_text : string;
  articulation_model : string;
  articulation_success : bool
}.

Section Defs.
Context {World Time Verdict : Type}.
Local Abbreviation value := (value Time Verdict).
Variable isspace : ascii → bool.
(** [repr v] is [str(v)] for a value that is not a string. *)
Variable repr : value → string.
Variable query : Prompt → World → Final.QueryOutcome * World.

Definition str (v : value) : string :=
  match v with
  | StrValue s => s
  | _ => repr v
  end.

(** [_format_verdict(verdict)] *)
Definition _format_verdict (verdict : value) : string :=
  match verdict with
  | DictValue items =>
      let core_verdict :=
        default (default (StrValue (str verdict)) (get "final_verdict" items))
                (get "verdict" items) in
      str core_verdict
  | StrValue s => s
  | _ => str verdict
  end.

(** [_format_context(context)]; [None] is Python's [None]. *)
Definition _format_context (context : option (list (string * value)))
    : string :=
  match context with
  | None | Some [] => "No additional context provided."
  | Some items =>
      let context_parts :=
        (match get "intent" items with
         | Some v => ["Intent: " +:+ str v] | None => [] end)
        ++ (match get "confidence" items with
            | Some v => ["Confidence: " +:+ str v] | None => [] end)
        ++ (match get "source" items with
            | Some v => ["Source: " +:+ str v] | None => [] end) in
      match context_parts with
      | [] => "General context available."
      | _ => ISSBrainstemRest.join " | " context_parts
      end
  end.

(** [_clean_articulation(raw_text)] *)
Definition _clean_articulation (raw_text : string) : string :=
  let text := strip isspace raw_text in
  let text := strip (λ c, bool_decide (c = single_quote))
                (strip (λ c, bool_decide (c = double_quote)) text) in
  if decide (text = EmptyString)
  then "I have processed your request and reached a conclusion."
  else if endswith ["."; "!"; "?"]%char text then text
  else text +:+ ".".

(** [_fallback_articulation(verdict)] *)
Definition _fallback_articulation (verdict : value) : string :=
  let verdict_text := _format_verdict verdict in
  let fallbacks :=
    ["I have carefully considered this matter. " +:+ verdict_text;
     "Based on my analysis, I conclude that " +:+ verdict_text;
     "My assessment indicates that " +:+ verdict_text;
     "After thorough evaluation, I determine that " +:+ verdict_text] in
  let index := (String.length (str verdict) / 20) `min` (length fallbacks - 1) in
  default EmptyString (fallbacks !! index).

(** [articulate(verdict, context)], by the spoken text and, of the
    metadata, the model and the success. *)
Definition articulate (verdict : value)
    (context : option (list (string * value))) (w : World)
    : Articulation * World :=
  let verdict_text := _format_verdict verdict in
  let context_text := _format_context context in
  let prompt := {| verdict_text := verdict_text;
                   context_text := context_text |} in
  let '(result, w) := query prompt w in
  match result with
  | Final.QuerySuccess response model =>
      ({| spoken_text := _clean_articulation response;
          articulation_model := model;
          articulation_success := true |}, w)
  | Final.QueryFailure =>
      ({| spoken_text := _fallback_articulation verdict;
          articulation_model := "fallback";
          articulation_success := false |}, w)
  | Final.QueryRaised =>
      ({| spoken_text := _fallback_articulation verdict;
          articulation_model := "error_fallback";
          articulation_success := false |}, w)
  end.

End Defs.
End Articulator.

(** * Caleon_Voice_Pipeline.py: the speech pipeline *)

Module VoicePipeline.
Import Stdlib.Strings.Ascii Articulator.

(** [len(text.split())]: the number of maximal runs of characters that
    are not whitespace. *)
Fixpoint word_count (isspace : ascii → bool) (in_word : bool) (text : string)
    : nat :=
  match text with
  | EmptyString => 0
  | String c rest =>
      if isspace c then word_count isspace false rest
      else (if in_word then 0 else 1) + word_count isspace true rest
  end.

Section Defs.
Context {World Time Distilled Verdict VoiceProfile Audio : Type}.
Local Abbreviation value := (Articulator.value Time Verdict).
Variable of_str : string → Verdict.
Variable time_time : World → Time * World.
Variable isspace : ascii → bool.
Variable repr : value → string.

(** The dict of a harmonizer, with the keys it has. *)
Definition result_dict (result : HarmonizationResult Verdict) : value :=
  DictValue
    ([("source", StrValue (source result));
      ("verdict", VerdictValue (verdict result))]
     ++ match cycles result with
        | Some n => [("cycles", IntValue n)]
        | None => []
        end
     ++ [("status", StrValue (status_str (status result)))]
     ++ match ollama_model result with
        | Some model => [("ollama_model", StrValue model)]
        | None => []
        end).

(** The dict [Thinker.reflect] returns. *)
Definition reflection_dict (refined : Thinker.ReflectionRecord Time Verdict)
    : value :=
  DictValue
    [("original", result_dict (Thinker.original refined));
     ("reflection", StrValue (Thinker.reflection refined));
     ("confidence", FloatValue (Thinker.confidence refined));
     ("pulse", PulseValue (Thinker.pulse refined));
     ("stardate", StardateValue (Thinker.stardate refined))].

(** [Thinker.reflect] on any dict. *)
Definition reflect (merged_verdict : value) (self : Thinker.t Time) (w : World)
    : value * Thinker.t Time * World :=
  let '(pulse, i, w) := ISSBrainstem.pulse time_time (Thinker.iss self) w in
  let '(stardate, w) := ISSBrainstem.stardate time_time w in
  (DictValue
     [("original", merged_verdict);
      ("reflection", StrValue "Meta-analysis applied");
      ("confidence", FloatValue (95 # 100)%Q);
      ("pulse", PulseValue pulse);
      ("stardate", StardateValue stardate)],
   {| Thinker.iss := i |}, w).

(** [d.get(key)] on a value that is a dict. *)
Definition dict_get (key : string) (d : value) : option value :=
  match d with
  | DictValue items => get key items
  | _ => None
  end.

(** [CaleonArticulator], by the query of its own [OllamaEngine] and its
    voice profile. *)
Record CaleonArticulator : Type := {
  query : Prompt → World → Final.QueryOutcome * World;
  voice_profile : VoiceProfile
}.

(** The attributes of [CaleonVoicePipeline] that [speak] reads.  The
    harmonizer keeps in [world] the world of its last call; [phonate] is
    [self.phonatory.phonate] with the settings of the voice profile, and
    returns [None] where it raises. *)
Record t : Type := {
  harmonizer : Final.state World Time Distilled Verdict;
  thinker : Thinker.t Time;
  iss : ISSBrainstem.t Time;
  articulator : CaleonArticulator;
  text_only_mode : bool;
  phonatory : option (string → World → option Audio * World)
}.

Record AudioResult : Type := { path : option Audio; duration : Q }.

(** [_synthesize_speech(text)] *)
Definition _synthesize_speech (text : string) (self : t) (w : World)
    : AudioResult * World :=
  match phonatory self with
  | None => ({| path := None; duration := 0 |}, w)
  | Some phonate =>
      match phonate text w with
      | (Some audio_path, w) =>
          let word_count := word_count isspace false text in
          let estimated_duration :=
            (inject_Z (Z.of_nat word_count) / 150 * 60)%Q in
          ({| path := Some audio_path; duration := estimated_duration |}, w)
      | (None, w) => ({| path := None; duration := 0 |}, w)
      end
  end.

(** The dict [speak] returns. *)
Record Speech : Type := {
  text : string;
  audio_path : option Audio;
  audio_duration : Q;
  speech_voice_profile : VoiceProfile;
  harmonizer_status : option value;
  thinker_confidence : option value;
  phi3_model : string;
  phonatory_available : bool;
  pipeline_start : ISSBrainstem.Stardate Time;
  pipeline_end : ISSBrainstem.Stardate Time
}.

Definition with_harmonizer (h : Final.state World Time Distilled Verdict)
    (self : t) : t :=
  {| harmonizer := h; thinker := thinker self; iss := iss self;
     articulator := articulator self; text_only_mode := text_only_mode self;
     phonatory := phonatory self |}.

(** [speak(left_verdict, right_verdict, distilled, context)] *)
Definition speak (left_verdict right_verdict : Verdict) (distilled : Distilled)
    (context : option (list (string * value))) (self : t) (w : World)
    : res Speech * t * World :=
  let '(pipeline_start, w) := ISSBrainstem.stardate time_time w in
  (* 1. final harmonizer *)
  let '(harmonized, h) :=
    Final.harmonize of_str time_time left_verdict right_verdict distilled
      (Final.set_world w (harmonizer self)) in
  let w := Final.world h in
  match harmonized with
  | Ok harmonized =>
      let harmonized := reflection_dict harmonized in
      (* 2. thinker *)
      let '(refined, th, w) := reflect harmonized (thinker self) w in
      (* 3. articulation *)
      let '(result, w) :=
        articulate isspace repr (query (articulator self)) refined None w in
      let articulated_text := spoken_text result in
      (* 4. phonatory output *)
      let '(audio_result, w) :=
        if text_only_mode self then ({| path := None; duration := 0 |}, w)
        else _synthesize_speech articulated_text self w in
      let '(pipeline_end, w) := ISSBrainstem.stardate time_time w in
      (Ok {| text := articulated_text;
             audio_path := path audio_result;
             audio_duration := duration audio_result;
             speech_voice_profile := voice_profile (articulator self);
             harmonizer_status := dict_get "status" harmonized;
             thinker_confidence := dict_get "confidence" refined;
             phi3_model := "phi3:mini";
             phonatory_available := bool_decide (is_Some (phonatory self));
             pipeline_start := pipeline_start;
             pipeline_end := pipeline_end |},
       {| harmonizer := h; thinker := th; iss := iss self;
          articulator := articulator self;
          text_only_mode := text_only_mode self;
          phonatory := phonatory self |}, w)
  | Raise e => (Raise e, with_harmonizer h self, w)
  | Pending => (Pending, with_harmonizer h self, w)
  end.

End Defs.
End VoicePipeline.

(** * Intent_Consent.py: the consent gate

    [lower] is [str.lower], and [isspace] tells the characters that
    [str.strip()] removes and at which [str.split()] splits. *)

Module IntentConsent.
Import Stdlib.Strings.Ascii.

(** [s.startswith(prefix)] and [needle in s]. *)
Fixpoint startswith (prefix s : string) : bool :=
  match prefix, s with
  | EmptyString, _ => true
  | String a prefix, String b s =>
      if decide (a = b) then startswith prefix s else false
  | String _ _, EmptyString => false
  end.

Fixpoint contains (needle s : string) : bool :=
  startswith needle s
  || match s with
     | EmptyString => false
     | String _ rest => contains needle rest
     end.

(** [s.split()]: the maximal runs of characters that are not whitespace;
    [word] is the run being read. *)
Fixpoint split_whitespace (isspace : ascii → bool) (word s : string)
    : list string :=
  match s with
  | EmptyString => if decide (word = EmptyString) then [] else [word]
  | String c rest =>
      if isspace c
      then (if decide (word = EmptyString) then [] else [word])
           ++ split_whitespace isspace EmptyString rest
      else split_whitespace isspace (word +:+ String c EmptyString) rest
  end.

(** [s.split(" ")[0]]: what comes before the first space. *)
Fixpoint first_field (s : string) : string :=
  match s with
  | EmptyString => EmptyString
  | String c rest =>
      if decide (c = " "%char) then EmptyString else String c (first_field rest)
  end.

(** A value of the context dict: a string or anything else. *)
Inductive context_value : Type :=
  | ContextStr (s : string)
  | ContextOther.

#[global] Instance context_value_eq_dec : EqDecision context_value.
Proof. solve_decision. Defined.

Section Defs.
Context {World Time : Type}.
Variable time_time : World → Time * World.
Variable lower : string → string.
Variable isspace : ascii → bool.

Record Escalation : Type := {
  reason : string;
  timestamp : ISSBrainstem.Stardate Time
}.

Record t : Type := {
  safe_bases : list string;
  harmful_verbs : list string;
  protected_terms : list string;
  internal_terms : list string;
  escalations : list Escalation;
  last_check : option (ISSBrainstem.Stardate Time)
}.

Definition __init__ : t :=
  {| safe_bases :=
       ["analyze"; "explain"; "calculate"; "think"; "reason";
        "summarize"; "translate"; "reflect"; "infer"; "project";
        "search"; "lookup"; "explore"; "consider"];
     harmful_verbs :=
       ["delete"; "destroy"; "erase"; "wipe"; "kill"; "shutdown";
        "disable"; "break"; "format"; "overwrite"];
     protected_terms :=
       ["system files"; "kernel"; "core"; "os"; "vault";
        "memory"; "network"; "registry"];
     internal_terms := ["diagnostic"; "health"; "system"];
     escalations := [];
     last_check := None |}.

(** [_escalate(reason)]; the module's own oracle [iss] reads the clock. *)
Definition _escalate (reason : string) (self : t) (w : World) : t * World :=
  let '(sd, w) := ISSBrainstem.stardate time_time w in
  ({| safe_bases := safe_bases self; harmful_verbs := harmful_verbs self;
      protected_terms := protected_terms self;
      internal_terms := internal_terms self;
      escalations := escalations self
                     ++ [{| reason := reason; timestamp := sd |}];
      last_check := last_check self |}, w).

(** [authorize(intent, context)]; [None] is the default of [context]. *)
Definition authorize (intent : string)
    (context : option (gmap string context_value)) (self : t) (w : World)
    : bool * t * World :=
  let '(sd, w) := ISSBrainstem.stardate time_time w in
  let self :=
    {| safe_bases := safe_bases self; harmful_verbs := harmful_verbs self;
       protected_terms := protected_terms self;
       internal_terms := internal_terms self;
       escalations := escalations self; last_check := Some sd |} in
  let intent_l := Articulator.strip isspace (lower intent) in
  let ctx := default ∅ context in
  (* SYSTEM master override *)
  if bool_decide (ctx !! "source" = Some (ContextStr "SYSTEM"))
     && existsb (λ term, contains term intent_l) (internal_terms self)
  then (true, self, w)
  else
  (* hard blocks *)
  let words := split_whitespace isspace EmptyString intent_l in
  if existsb (λ v, bool_decide (v ∈ words)) (harmful_verbs self)
  then let '(self, w) := _escalate ("Harmful intent: " +:+ intent) self w in
       (false, self, w)
  else
  (* protected areas *)
  if existsb (λ term, contains term intent_l) (protected_terms self)
  then let '(self, w) :=
         _escalate ("Unauthorized protected access: " +:+ intent) self w in
       (false, self, w)
  else
  (* internal diagnostics *)
  if existsb (λ term, contains term intent_l) (internal_terms self)
  then let '(self, w) :=
         _escalate ("Internal function without SYSTEM context: " +:+ intent)
           self w in
       (false, self, w)
  else
  (* safe verbs *)
  let base := first_field intent_l in
  if bool_decide (base ∈ safe_bases self) then (true, self, w)
  else
  if contains "search" intent_l && contains "information" intent_l
  then (true, self, w)
  else
  let '(self, w) := _escalate ("Unknown intent allowed: " +:+ intent) self w in
  (true, self, w).

End Defs.
Arguments t : clear implicits.
Arguments Escalation : clear implicits.
End IntentConsent.

(** * Final_harmonizer.py: calls in a row *)

Module FinalRuns.
Section Defs.
Context {World Time Distilled Verdict : Type}.
Variable of_str : string → Verdict.
Variable time_time : World → Time * World.

(** Calls of [harmonize] on one harmonizer, one after the other, whatever
    each of them returns or raises; a call that does not return ends the
    sequence. *)
Fixpoint harmonize_all (inputs : list (Verdict * Verdict * Distilled))
    (self : Final.state World Time Distilled Verdict)
    : list (res (Thinker.ReflectionRecord Time Verdict))
      * Final.state World Time Distilled Verdict :=
  match inputs with
  | [] => ([], self)
  | (left_verdict, right_verdict, distilled) :: inputs =>
      let '(r, self) :=
        Final.harmonize of_str time_time left_verdict right_verdict distilled
          self in
      match r with
      | Pending => ([Pending], self)
      | _ => let '(rs, self) := harmonize_all inputs self in (r :: rs, self)
      end
  end.

End Defs.
End FinalRuns.

(** * Anterior_helix.py and Echostack.py: the reasoning layers

    What [process] computes before it stamps the packet with the time
    oracle and logs it; [random i] is the outcome of the [i]-th call of
    [random()], and [read_seed] is [VaultAPI.read_seed]. *)

Module AnteriorHelix.
Import Resonator.
Local Open Scope Q_scope.

Record t : Type := {
  hemisphere : string;
  timestamp_lead_ms : Q;
  kant : Seed;
  locke : Seed;
  monotonic : Seed;
  gladwell : Seed;
  _reflection_index : nat
}.

Definition __init__ (hemisphere : string) (read_seed : string → Seed) : t :=
  {| hemisphere := hemisphere;
     timestamp_lead_ms := 50;
     kant := read_seed "seed_kant"%string;
     locke := read_seed "seed_locke"%string;
     monotonic := read_seed "seed_monotonic"%string;
     gladwell := read_seed "seed_gladwell"%string;
     _reflection_index := 0 |}.

Section Defs.
Context {Packet : Type}.

Definition _kant_reason (self : t) (input_packet : Packet) (r : Q) : Q :=
  let ethics_weight := default 1 (kant self !! "ethics_weight"%string) in
  ethics_weight * uniform (82 # 100) (99 # 100) r.

Definition _locke_reason (self : t) (input_packet : Packet) (r : Q) : Q :=
  let emp := default 1 (locke self !! "empirical_factor"%string) in
  emp * uniform (80 # 100) (97 # 100) r.

Definition _monotonic_reason (self : t) (input_packet : Packet) (r : Q) : Q :=
  let st := default 1 (monotonic self !! "stability_factor"%string) in
  st * uniform (85 # 100) (98 # 100) r.

Definition _gladwell_reason (self : t) (input_packet : Packet) (r : Q) : Q :=
  let th := default 1 (gladwell self !! "thin_slice_factor"%string) in
  th * uniform (83 # 100) (97 # 100) r.

Definition _combine (k l m g : Q) : Q := (k + l + m + g) / 4.

Record Combined : Type := {
  kant_v : Q;
  locke_v : Q;
  mono_v : Q;
  glad_v : Q;
  final_apriori_verdict : Q
}.

Definition process (self : t) (distilled_synaptic_input : Packet)
    (random : nat → Q) : Combined :=
  let kant_v := _kant_reason self distilled_synaptic_input (random 0%nat) in
  let locke_v := _locke_reason self distilled_synaptic_input (random 1%nat) in
  let mono_v := _monotonic_reason self distilled_synaptic_input (random 2%nat) in
  let glad_v := _gladwell_reason self distilled_synaptic_input (random 3%nat) in
  {| kant_v := kant_v; locke_v := locke_v; mono_v := mono_v; glad_v := glad_v;
     final_apriori_verdict := _combine kant_v locke_v mono_v glad_v |}.

End Defs.
End AnteriorHelix.

Module EchoStack.
Import Resonator.
Local Open Scope Q_scope.


Section Defs.
Variable read_seed : string → Seed.

Definition _logic_nonmonotonic (v r : Q) : Q :=
  let seed := read_seed "seed_nonmonotonic"%string in
  let adapt := default (4 # 100) (seed !! "adapt_factor"%string) in
  v * (1 + uniform (- adapt) adapt r).

Definition _logic_hume (v r : Q) : Q :=
  let seed := read_seed "seed_hume"%string in
  let skepticism := default (12 # 100) (seed !! "skepticism"%string) in
  v * (1 - uniform 0 skepticism r).

Definition _logic_spinoza (hume_val nm_val : Q) : Q :=
  let seed := read_seed "seed_spinoza"%string in
  let unity := default (5 # 10) (seed !! "unity_bias"%string) in
  (hume_val * unity) + (nm_val * (1 - unity)).

Definition _logic_ockham (v : Q) : Q :=
  let seed := read_seed "seed_ockhams_filter"%string in
  let trim := default (7 # 100) (seed !! "paradox_trim"%string) in
  v * (1 - trim).

Definition _logic_proverbs (v : Q) : Q :=
  let seed := read_seed "seed_proverbs"%string in
  let wisdom := default (5 # 100) (seed !! "wisdom_bias"%string) in
  v + (v * wisdom).

Definition _logic_taleb (v r : Q) : Q :=
  let seed := read_seed "seed_taleb"%string in
  let volatility_bonus :=
    default (10 # 100) (seed !! "volatility_bonus"%string) in
  v * (1 + uniform 0 volatility_bonus r).

Definition _logic_hedonic (v : Q) : Q :=
  let seed := read_seed "seed_hedonic_reflex"%string in
  let pleasure := default (5 # 100) (seed !! "pleasure_weight"%string) in
  let pain := default (8 # 100) (seed !! "pain_weight"%string) in
  if Qle_bool 0 v then v * (1 + pleasure) else v * (1 - pain).

Record Out : Type := {
  echostack_value_raw : Q;
  empirical_verdict : Q;
  hume_filter : Q;
  spinoza_unity : Q;
  ockham_cleaned : Q;
  proverb_weighted : Q;
  taleb_antifragile : Q;
  recursive_depth : Q
}.

Definition process (posterior_packet : gmap string Q) (random : nat → Q)
    : Out :=
  let raw_value :=
    default 1 (posterior_packet !! "posterior_final_verdict"%string) in
  let nm := _logic_nonmonotonic raw_value (random 0%nat) in
  let hume_val := _logic_hume nm (random 1%nat) in
  let spinoza_val := _logic_spinoza hume_val nm in
  let ockham_val := _logic_ockham spinoza_val in
  let proverb_val := _logic_proverbs ockham_val in
  let taleb_val := _logic_taleb proverb_val (random 2%nat) in
  let hedonic_val := _logic_hedonic taleb_val in
  {| echostack_value_raw := raw_value;
     empirical_verdict := hedonic_val;
     hume_filter := hume_val;
     spinoza_unity := spinoza_val;
     ockham_cleaned := ockham_val;
     proverb_weighted := proverb_val;
     taleb_antifragile := taleb_val;
     recursive_depth :=
       default 1 (posterior_packet !! "recursive_depth"%string) |}.

End Defs.
End EchoStack.

(** * Instances

    Concrete vaults, engines, draws and seeds on which the harmonizers and
    the resonator are run below. *)

Module Example.

(** A world that counts the readings of the clock, the calls of
    [vault.evaluate] and the queries sent to Ollama. *)
Record World : Set := { clock : nat; evaluations : nat; queries : nat }.

Definition time_time (w : World) : nat * World :=
  (clock w, {| clock := S (clock w); evaluations := evaluations w;
               queries := queries w |}).

Definition world0 : World := {| clock := 100; evaluations := 0; queries := 0 |}.

(** A verdict is a string. *)
Definition of_str (s : string) : string := s.

Definition names5 : list string := ["kant"; "hume"; "locke"; "mill"; "ayer"].
Definition names6 : list string := names5 ++ ["quine"].

(** A stub vault whose [n]-th evaluation is the only resolved one; with
    [n = 0] no verdict is resolved. *)
Definition stub_vault {Input : Type} (philosophers logic_seeds : list string)
    (n : nat) : Vault World Input string :=
  {| philosophers := philosophers;
     logic_seeds := logic_seeds;
     evaluate := λ _ _ _ w,
       (if decide (S (evaluations w) = n) then "YES" else "NO",
        {| clock := clock w; evaluations := S (evaluations w);
           queries := queries w |});
     is_resolved := λ verdict, bool_decide (verdict = "YES") |}.

(** Twelve draws of eleven different combos out of two philosophers and six
    seeds: the second repeats the first. *)
Definition draws12 : list draw :=
  [Draw 0 [0; 1; 2; 3; 4]; Draw 0 [4; 3; 2; 1; 0]; Draw 1 [0; 1; 2; 3; 4];
   Draw 0 [1; 2; 3; 4; 5]; Draw 1 [1; 2; 3; 4; 5]; Draw 0 [0; 2; 3; 4; 5];
   Draw 1 [0; 2; 3; 4; 5]; Draw 0 [0; 1; 3; 4; 5]; Draw 1 [0; 1; 3; 4; 5];
   Draw 0 [0; 1; 2; 4; 5]; Draw 1 [0; 1; 2; 4; 5]; Draw 0 [0; 1; 2; 3; 5]].

(** A left harmonizer on a vault of one combo, which is used. *)
Definition used_up (rng : list draw) : Hemisphere.state World unit string :=
  {| Hemisphere.vault := stub_vault ["spinoza"] names5 0;
     Hemisphere.previous_sets := [("spinoza", sorted names5)];
     Hemisphere.base_cycles := 5; Hemisphere.conflict_cycles := 5;
     Hemisphere.rng := rng; Hemisphere.world := world0;
     Hemisphere.cycle_log := [] |}.

(** A vault that resolves nothing. *)
Definition never_vault {Input : Type} (philosophers logic_seeds : list string)
    : Vault World Input string :=
  {| philosophers := philosophers;
     logic_seeds := logic_seeds;
     evaluate := λ _ _ _ w,
       ("NO", {| clock := clock w; evaluations := S (evaluations w);
                 queries := queries w |});
     is_resolved := λ _, false |}.

(** An Ollama that is not running. *)
Definition ollama_down : Final.OllamaEngine World string :=
  {| Final.health_check := λ w, (false, w);
     Final.query := λ _ w, (Final.QueryFailure, w) |}.

(** An Ollama that runs, fails its first query and answers the next ones. *)
Definition ollama_second : Final.OllamaEngine World string :=
  {| Final.health_check := λ w, (true, w);
     Final.query := λ _ w,
       (if decide (queries w = 0) then Final.QueryFailure
        else Final.QuerySuccess "common ground" "phi3:mini",
        {| clock := clock w; evaluations := evaluations w;
           queries := S (queries w) |}) |}.

(** A final harmonizer on a vault of one combo, which is used. *)
Definition used_up_final (rng : list draw)
    : Final.state World nat unit string :=
  {| Final.vault := never_vault ["spinoza"] names5;
     Final.previous_sets := [("spinoza", sorted names5)];
     Final.primary_cycles := 5; Final.conflict_cycles := 5;
     Final.thinker := {| Thinker.iss := {| ISSBrainstem._cycle := 0;
                                           ISSBrainstem._last_ts := 0 |} |};
     Final.ollama := ollama_down;
     Final.rng := rng; Final.world := world0;
     Final.cycle_log := [] |}.

(** A left harmonizer whose vault resolves on the third evaluation. *)
Definition left3 : Hemisphere.state World unit string :=
  Hemisphere.__init__
    (stub_vault ["spinoza"; "leibniz"] names6 3)
    draws12 world0.

(** A final harmonizer whose vault resolves nothing and whose Ollama is
    not running. *)
Definition final_deaf : Final.state World nat unit string :=
  Final.__init__ time_time
    (never_vault ["spinoza"; "leibniz"] names6)
    ollama_down draws12 world0.

(** A final harmonizer whose vault resolves nothing and whose Ollama
    answers from its second query on. *)
Definition final_second : Final.state World nat unit string :=
  Final.__init__ time_time
    (never_vault ["spinoza"; "leibniz"] names6)
    ollama_second draws12 world0.

End Example.

Module ResonatorExample.
Import Resonator.
Local Open Scope Q_scope.


Definition zero_seeds (_ : string) : Seed :=
  <["bias"%string := 0]> {["mod"%string := 0]}.

(** The values 0, ..., 0, 1. *)
Definition values : list Q := replicate 2339 0 ++ [1].

End ResonatorExample.

Module Scenario.
Import Example.

(** A clock that advances by one second at each reading. *)
Definition tick (w : nat) : Q * nat := (inject_Z (Z.of_nat w), S w).

(** An oracle built at second 100. *)
Definition iss100 : ISSBrainstem.t Q :=
  {| ISSBrainstem._cycle := 0; ISSBrainstem._last_ts := 100%Q |}.

(** An orchestrator as [__init__] leaves it. *)
Definition orchestrator : TaskOrchestrator.t nat unit :=
  (TaskOrchestrator.__init__ time_time world0).1.

(** Four calls, two of them of [queue] and of [mark_done] on an empty
    item. *)
Definition four_calls
    : list (string * list (gmap string (TaskOrchestrator.value nat unit))) :=
  [("queue", [∅]); ("next", []); ("mark_done", [∅]); ("next", [])].

(** A left harmonizer on a vault without philosophers. *)
Definition left_empty : Hemisphere.state World unit string :=
  Hemisphere.__init__ (stub_vault [] names6 0) draws12 world0.



(** Final harmonizers whose vault resolves on the third and on the
    seventh evaluation. *)
Definition final3 : Final.state World nat unit string :=
  Final.__init__ time_time
    (stub_vault ["spinoza"; "leibniz"] names6 3)
    ollama_down draws12 world0.

Definition final7 : Final.state World nat unit string :=
  Final.__init__ time_time
    (stub_vault ["spinoza"; "leibniz"] names6 7)
    ollama_second draws12 world0.

End Scenario.

Module TextScenario.
Import Stdlib.Strings.Ascii.

(** The whitespace of ASCII, as [str.isspace] has it. *)
Definition isspace (c : ascii) : bool :=
  let n := nat_of_ascii c in
  ((9 <=? n) && (n <=? 13)) || ((28 <=? n) && (n <=? 32)).

(** [str.lower] on ASCII text. *)
Definition lower_char (c : ascii) : ascii :=
  let n := nat_of_ascii c in
  if (65 <=? n) && (n <=? 90) then ascii_of_nat (n + 32) else c.

Fixpoint lower (s : string) : string :=
  match s with
  | EmptyString => EmptyString
  | String c rest => String (lower_char c) (lower rest)
  end.

(** A gate as [__init__] leaves it, on the clock of the examples. *)
Definition gate : IntentConsent.t nat := IntentConsent.__init__.

Definition system_context : option (gmap string IntentConsent.context_value) :=
  Some {["source" := IntentConsent.ContextStr "SYSTEM"]}.

(** A vault without seed files, and an anterior helix built on it. *)
Definition no_seeds (name : string) : Resonator.Seed := ∅.

Definition helix : AnteriorHelix.t := AnteriorHelix.__init__ "left" no_seeds.

End TextScenario.

(** * Properties *)

(** ** The order of strings and [sorted] *)

Lemma ascii_compare_refl (a : Ascii.ascii) : Ascii.compare a a = Eq.
Proof. unfold Ascii.compare. apply N.compare_refl. Qed.

Lemma ascii_compare_lt_trans (a b c : Ascii.ascii) :
  Ascii.compare a b = Lt → Ascii.compare b c = Lt → Ascii.compare a c = Lt.
Proof.
  unfold Ascii.compare. rewrite !N.compare_lt_iff. apply N.lt_trans.
Qed.

#[global] Instance str_le_trans : Transitive str_le.
Proof.
  unfold str_le, String.leb. intros s1.
  induction s1 as [|a s1 IH]; intros [|b s2] [|c s3]; simpl; try done.
  destruct (Ascii.compare a b) eqn:Hab; try done;
    destruct (Ascii.compare b c) eqn:Hbc; try done.
  - apply Ascii.compare_eq_iff in Hab, Hbc. subst.
    rewrite ascii_compare_refl. apply IH.
  - apply Ascii.compare_eq_iff in Hab. subst. by rewrite Hbc.
  - apply Ascii.compare_eq_iff in Hbc. subst. by rewrite Hab.
  - by rewrite (ascii_compare_lt_trans a b c).
Qed.

#[global] Instance str_le_total : Total str_le.
Proof. intros s t. apply String.leb_total. Qed.

#[global] Instance str_le_antisymm : AntiSymm (=) str_le.
Proof. intros s t. apply String.leb_antisym. Qed.

Lemma sorted_Permutation (l1 l2 : list string) :
  l1 ≡ₚ l2 → sorted l1 = sorted l2.
Proof.
  intros Hperm. unfold sorted.
  apply (Sorted_unique str_le); try apply (Sorted_merge_sort str_le).
  by rewrite !merge_sort_Permutation.
Qed.

(** ** The selection loop *)

Section SeedsetLoop.
Variables philosophers logic_seeds : list string.

(** With a philosopher to choose and five seeds to sample, one iteration
    either rejects the combo of its draw or returns it. *)
Lemma seedset_loop_cons previous_sets d rng :
  philosophers ≠ [] → 5 ≤ length logic_seeds →
  seedset_loop philosophers logic_seeds previous_sets (d :: rng) =
    if decide (combo_of philosophers logic_seeds d ∈ previous_sets)
    then seedset_loop philosophers logic_seeds previous_sets rng
    else (Ok (combo_of philosophers logic_seeds d),
          previous_sets ++ [combo_of philosophers logic_seeds d], rng).
Proof.
  intros Hp Hl. simpl. unfold random_choice, random_sample, combo_of.
  destruct philosophers as [|p ps]; [done|].
  destruct (decide (length logic_seeds < 5)); [lia|done].
Qed.

(** Whatever the draws, a returned combo was unused and is appended, and
    nothing else touches [previous_sets]. *)
Lemma seedset_loop_previous previous_sets rng :
  match seedset_loop philosophers logic_seeds previous_sets rng with
  | (Ok c, previous_sets', _) =>
      (c ∉ previous_sets) ∧ (previous_sets' = previous_sets ++ [c])
  | (_, previous_sets', _) => (previous_sets' = previous_sets)
  end.
Proof.
  induction rng as [|d rng IH]; simpl; [done|].
  destruct (random_choice _ _); try done.
  destruct (random_sample _ _ _); try done.
  case_decide; [apply IH|done].
Qed.

(** Draws that hold an unused combo make the loop return. *)
Lemma seedset_loop_fresh previous_sets rng n :
  philosophers ≠ [] → 5 ≤ length logic_seeds →
  fresh_draws philosophers logic_seeds previous_sets rng = S n →
  ∃ c rng',
    seedset_loop philosophers logic_seeds previous_sets rng
      = (Ok c, previous_sets ++ [c], rng') ∧
    fresh_draws philosophers logic_seeds (previous_sets ++ [c]) rng' = n.
Proof.
  intros Hp Hl. induction rng as [|d rng IH]; [done|].
  rewrite seedset_loop_cons by done. simpl.
  case_decide; [apply IH|]. intros [= <-]. eauto.
Qed.

(** Draws that hold used combos only leave the loop running. *)
Lemma seedset_loop_exhausted previous_sets rng :
  philosophers ≠ [] → 5 ≤ length logic_seeds →
  Forall (λ d, combo_of philosophers logic_seeds d ∈ previous_sets) rng →
  seedset_loop philosophers logic_seeds previous_sets rng
    = (Pending, previous_sets, []).
Proof.
  intros Hp Hl. induction 1 as [|d rng Hd _ IH]; [done|].
  rewrite seedset_loop_cons by done. by rewrite decide_True.
Qed.

(** Draws that can serve no selection leave the loop running. *)
Lemma seedset_loop_no_fresh previous_sets rng :
  philosophers ≠ [] → 5 ≤ length logic_seeds →
  fresh_draws philosophers logic_seeds previous_sets rng = 0 →
  seedset_loop philosophers logic_seeds previous_sets rng
    = (Pending, previous_sets, []).
Proof.
  intros Hp Hl. induction rng as [|d rng IH]; [done|].
  rewrite seedset_loop_cons by done. simpl.
  case_decide; [apply IH|done].
Qed.

End SeedsetLoop.


(** Five distinct positions of a list of five elements name all of them. *)
Lemma sample_all (population : list string) (js : list nat) :
  length population = 5 → length js = 5 → NoDup js →
  Forall (λ j, j < length population) js →
  (λ j, nth j population EmptyString) <$> js ≡ₚ population.
Proof.
  intros Hn Hjs Hnd Hlt.
  assert (js ≡ₚ seq 0 5) as ->.
  { apply NoDup_Permutation_bis.
    - by apply NoDup_ListNoDup.
    - by rewrite length_seq, Hjs.
    - intros j Hj. apply in_seq. apply list_elem_of_In in Hj.
      rewrite Forall_forall in Hlt. specialize (Hlt j Hj). lia. }
  do 6 (destruct population as [|? population]; try done).
Qed.

(** ** The hemisphere harmonizers *)

Module HemisphereFacts.
Import Hemisphere.
Section Facts.
Context {World Input Verdict : Type}.
Variable of_str : string → Verdict.
Variable hemisphere_source : string.
Local Abbreviation state := (Hemisphere.state World Input Verdict).
Implicit Types (st : state) (l : list (CycleRecord Verdict)).

Definition fresh st : nat :=
  fresh_draws (philosophers (vault st)) (logic_seeds (vault st))
              (previous_sets st) (rng st).

Definition extends st l st' : Prop :=
  vault st' = vault st ∧ base_cycles st' = base_cycles st ∧
  conflict_cycles st' = conflict_cycles st ∧
  cycle_log st' = cycle_log st ++ l ∧
  previous_sets st' = previous_sets st ++ (cr_combo <$> l) ∧
  NoDup (cr_combo <$> l) ∧
  Forall (λ c, c ∉ previous_sets st) (cr_combo <$> l).

Lemma extends_nil st st' :
  vault st' = vault st → base_cycles st' = base_cycles st →
  conflict_cycles st' = conflict_cycles st →
  cycle_log st' = cycle_log st → previous_sets st' = previous_sets st →
  extends st [] st'.
Proof.
  intros. repeat split; simpl; rewrite ?app_nil_r; try done. constructor.
Qed.

Lemma extends_trans st l1 st1 l2 st2 :
  extends st l1 st1 → extends st1 l2 st2 → extends st (l1 ++ l2) st2.
Proof.
  intros (Hv1 & Hb1 & Hc1 & Hl1 & Hp1 & Hn1 & Hf1)
         (Hv2 & Hb2 & Hc2 & Hl2 & Hp2 & Hn2 & Hf2).
  rewrite Hp1 in Hf2. unfold extends. rewrite fmap_app.
  repeat split; try congruence.
  - by rewrite Hl2, Hl1, app_assoc.
  - by rewrite Hp2, Hp1, app_assoc.
  - apply NoDup_app. repeat split; try done.
    intros c Hc1' Hc2'. rewrite Forall_forall in Hf2.
    apply (Hf2 c Hc2'), elem_of_app. by right.
  - apply Forall_app. split; [done|].
    eapply Forall_impl; [exact Hf2|]. intros c Hc Hc'.
    apply Hc, elem_of_app. by left.
Qed.

Lemma pick_cases st :
  (∃ c rng',
     (c ∉ previous_sets st) ∧
     _pick_unique_seedset st =
       (Ok c, {| vault := vault st; previous_sets := previous_sets st ++ [c];
                 base_cycles := base_cycles st;
                 conflict_cycles := conflict_cycles st;
                 rng := rng'; world := world st;
                 cycle_log := cycle_log st |})) ∨
  (∃ r rng',
     (∀ c, r ≠ Ok c) ∧
     _pick_unique_seedset st =
       (r, {| vault := vault st; previous_sets := previous_sets st;
              base_cycles := base_cycles st;
              conflict_cycles := conflict_cycles st;
              rng := rng'; world := world st;
              cycle_log := cycle_log st |})).
Proof.
  unfold _pick_unique_seedset.
  pose proof (seedset_loop_previous (philosophers (vault st))
                (logic_seeds (vault st)) (previous_sets st) (rng st)) as H.
  destruct (seedset_loop _ _ _ _) as [[[c|e|] prev'] rng'].
  - destruct H as [Hc ->]. left. eauto.
  - subst. right. eexists _, _. split; [|done]. done.
  - subst. right. eexists _, _. split; [|done]. done.
Qed.

(** What one cycle does, whichever loop it belongs to: [mk] builds the
    result returned on a resolved verdict from [self.base_cycles], the
    loop index and the verdict. *)
Definition cycle_spec
    (body : nat → M state (option (HarmonizationResult Verdict)))
    (mk : nat → nat → Verdict → HarmonizationResult Verdict) : Prop :=
  ∀ i st,
    match body i st with
    | (Ok (Some r), st') =>
        ∃ cr, extends st [cr] st' ∧
              is_resolved (vault st) (cr_verdict cr) = true ∧
              r = mk (base_cycles st) i (cr_verdict cr)
    | (Ok None, st') =>
        ∃ cr, extends st [cr] st' ∧
              is_resolved (vault st) (cr_verdict cr) = false
    | (_, st') => extends st [] st'
    end.

Ltac run_pick st :=
  unfold mbind, M_bind;
  destruct (pick_cases st) as [(c & rng' & Hc & ->)|(r & rng' & Hr & ->)];
  [destruct c as [philosopher logic_set]
  |destruct r as [c| |]; [by destruct (Hr c)| |];
   by apply extends_nil].

Lemma extends_one st philosopher logic_set rng' verdict world' :
  (philosopher, logic_set) ∉ previous_sets st →
  extends st [{| cr_combo := (philosopher, logic_set); cr_verdict := verdict |}]
    {| vault := vault st;
       previous_sets := previous_sets st ++ [(philosopher, logic_set)];
       base_cycles := base_cycles st; conflict_cycles := conflict_cycles st;
       rng := rng'; world := world';
       cycle_log := cycle_log st ++
         [{| cr_combo := (philosopher, logic_set); cr_verdict := verdict |}] |}.
Proof.
  intros Hc. repeat split; simpl; try done.
  - apply NoDup_singleton.
  - by repeat constructor.
Qed.

Lemma primary_cycle_spec distilled :
  cycle_spec (primary_cycle hemisphere_source distilled)
    (λ _ cycle verdict,
       {| source := hemisphere_source; verdict := verdict;
          cycles := Some cycle; status := resolved; ollama_model := None |}).
Proof.
  intros i st. unfold primary_cycle. run_pick st.
  unfold vault_evaluate; simpl.
  destruct (evaluate _ _ _ _ _) as [verdict world'] eqn:He. simpl.
  destruct (is_resolved _ _) eqn:Hres; simpl;
    eexists; (split; [by apply extends_one|done]).
Qed.

Lemma conflict_cycle_spec distilled :
  cycle_spec (conflict_cycle hemisphere_source distilled)
    (λ base conflict verdict,
       {| source := hemisphere_source; verdict := verdict;
          cycles := Some (base + conflict); status := resolved;
          ollama_model := None |}).
Proof.
  intros i st. unfold conflict_cycle. run_pick st.
  unfold vault_evaluate; simpl.
  destruct (evaluate _ _ _ _ _) as [verdict world'] eqn:He. simpl.
  destruct (is_resolved _ _) eqn:Hres; simpl;
    eexists; (split; [by apply extends_one|done]).
Qed.

Definition unresolved_in st l : Prop :=
  Forall (λ cr, is_resolved (vault st) (cr_verdict cr) = false) l.

Lemma for_cycles_spec body mk range st :
  cycle_spec body mk →
  match for_cycles range body st with
  | (Ok (Some r), st') =>
      ∃ l cr i, extends st (l ++ [cr]) st' ∧ unresolved_in st l ∧
                is_resolved (vault st) (cr_verdict cr) = true ∧
                range !! length l = Some i ∧
                r = mk (base_cycles st) i (cr_verdict cr)
  | (Ok None, st') =>
      ∃ l, extends st l st' ∧ unresolved_in st l ∧ length l = length range
  | (_, st') => ∃ l, extends st l st' ∧ length l < length range
  end.
Proof.
  intros Hbody. revert st. induction range as [|i range IH]; intros st; simpl.
  { exists []. split; [by apply extends_nil|]. split; [constructor|done]. }
  unfold mbind, M_bind. specialize (Hbody i st).
  destruct (body i st) as [[[r|]|e|] st1].
  - destruct Hbody as (cr & Hext & Hres & ->). simpl.
    exists [], cr, i. split; [exact Hext|]. split; [constructor|done].
  - destruct Hbody as (cr & Hext & Hres).
    assert (vault st1 = vault st) as Hv by apply Hext.
    assert (base_cycles st1 = base_cycles st) as Hb by apply Hext.
    specialize (IH st1). unfold unresolved_in in *. rewrite Hv, Hb in IH.
    destruct (for_cycles range body st1) as [[[r|]|e|] st2].
    + destruct IH as (l & cr' & j & Hext' & Hun & Hres' & Hj & ->).
      exists (cr :: l), cr', j.
      split; [apply (extends_trans st [cr] st1 (l ++ [cr']) st2 Hext Hext')|].
      split; [by constructor|done].
    + destruct IH as (l & Hext' & Hun & Hlen).
      exists (cr :: l).
      split; [apply (extends_trans st [cr] st1 l st2 Hext Hext')|].
      split; [by constructor|simpl; by rewrite Hlen].
    + destruct IH as (l & Hext' & Hlen). exists (cr :: l). split.
      * apply (extends_trans st [cr] st1 l st2 Hext Hext').
      * simpl. lia.
    + destruct IH as (l & Hext' & Hlen). exists (cr :: l). split.
      * apply (extends_trans st [cr] st1 l st2 Hext Hext').
      * simpl. lia.
  - exists []. split; [done|simpl; lia].
  - exists []. split; [done|simpl; lia].
Qed.

Lemma for_cycles_extends body mk range st :
  cycle_spec body mk → ∃ l, extends st l (for_cycles range body st).2.
Proof.
  intros Hbody. pose proof (for_cycles_spec body mk range st Hbody) as H.
  destruct (for_cycles range body st) as [[[r|]|e|] st']; simpl.
  - destruct H as (l & cr & i & H & _). eauto.
  - destruct H as (l & H & _). eauto.
  - destruct H as (l & H & _). eauto.
  - destruct H as (l & H & _). eauto.
Qed.

(** A cycle returns when the draws hold an unused combo, and uses it up. *)
Definition cycle_total
    (body : nat → M state (option (HarmonizationResult Verdict))) : Prop :=
  ∀ i st n,
    philosophers (vault st) ≠ [] → 5 ≤ length (logic_seeds (vault st)) →
    fresh st = S n →
    ∃ o st', body i st = (Ok o, st') ∧ vault st' = vault st ∧ fresh st' = n.

Lemma pick_fresh st n :
  philosophers (vault st) ≠ [] → 5 ≤ length (logic_seeds (vault st)) →
  fresh st = S n →
  ∃ c rng',
    _pick_unique_seedset st =
      (Ok c, {| vault := vault st; previous_sets := previous_sets st ++ [c];
                base_cycles := base_cycles st;
                conflict_cycles := conflict_cycles st;
                rng := rng'; world := world st;
                cycle_log := cycle_log st |}) ∧
    fresh_draws (philosophers (vault st)) (logic_seeds (vault st))
                (previous_sets st ++ [c]) rng' = n.
Proof.
  intros Hp Hl Hn. unfold _pick_unique_seedset.
  destruct (seedset_loop_fresh _ _ _ _ _ Hp Hl Hn) as (c & rng' & -> & Hn').
  eauto.
Qed.

Lemma primary_cycle_total distilled :
  cycle_total (primary_cycle hemisphere_source distilled).
Proof.
  intros i st n Hp Hl Hn. unfold primary_cycle, mbind, M_bind.
  destruct (pick_fresh st n Hp Hl Hn) as ([philosopher logic_set] & rng' & -> & Hn').
  unfold vault_evaluate; simpl.
  destruct (evaluate _ _ _ _ _) as [verdict world'] eqn:He. simpl.
  destruct (is_resolved _ _); simpl; eauto.
Qed.

Lemma conflict_cycle_total distilled :
  cycle_total (conflict_cycle hemisphere_source distilled).
Proof.
  intros i st n Hp Hl Hn. unfold conflict_cycle, mbind, M_bind.
  destruct (pick_fresh st n Hp Hl Hn) as ([philosopher logic_set] & rng' & -> & Hn').
  unfold vault_evaluate; simpl.
  destruct (evaluate _ _ _ _ _) as [verdict world'] eqn:He. simpl.
  destruct (is_resolved _ _); simpl; eauto.
Qed.

Lemma for_cycles_total body range st :
  cycle_total body →
  philosophers (vault st) ≠ [] → 5 ≤ length (logic_seeds (vault st)) →
  length range ≤ fresh st →
  ∃ o st', for_cycles range body st = (Ok o, st') ∧
           fresh st ≤ fresh st' + length range.
Proof.
  intros Hbody. revert st.
  induction range as [|i range IH]; intros st Hp Hl Hn; simpl in *.
  { eexists _, _. split; [done|lia]. }
  destruct (fresh st) as [|n] eqn:Hf; [lia|].
  destruct (Hbody i st n Hp Hl Hf) as (o & st1 & Hrun & Hv & Hf1).
  unfold mbind, M_bind. rewrite Hrun. destruct o as [r|].
  - eexists _, _. split; [done|]. lia.
  - rewrite <- Hv in Hp, Hl.
    destruct (IH st1 Hp Hl) as (o & st2 & -> & Hf2); [lia|].
    eexists _, _. split; [done|]. lia.
Qed.

(** A cycle whose selection meets no unused combo is still selecting when
    the draws are used up. *)
Definition cycle_starved
    (body : nat → M state (option (HarmonizationResult Verdict))) : Prop :=
  ∀ i st,
    philosophers (vault st) ≠ [] → 5 ≤ length (logic_seeds (vault st)) →
    fresh st = 0 → ∃ st', body i st = (Pending, st').

Lemma pick_starved st :
  philosophers (vault st) ≠ [] → 5 ≤ length (logic_seeds (vault st)) →
  fresh st = 0 → ∃ st', _pick_unique_seedset st = (Pending, st').
Proof.
  intros Hp Hl Hn. unfold _pick_unique_seedset.
  rewrite (seedset_loop_no_fresh _ _ _ _ Hp Hl Hn). eauto.
Qed.

Lemma primary_cycle_starved distilled :
  cycle_starved (primary_cycle hemisphere_source distilled).
Proof.
  intros i st Hp Hl Hn. unfold primary_cycle, mbind, M_bind.
  destruct (pick_starved st Hp Hl Hn) as (st' & ->). eauto.
Qed.

Lemma conflict_cycle_starved distilled :
  cycle_starved (conflict_cycle hemisphere_source distilled).
Proof.
  intros i st Hp Hl Hn. unfold conflict_cycle, mbind, M_bind.
  destruct (pick_starved st Hp Hl Hn) as (st' & ->). eauto.
Qed.

(** A loop of cycles on a vault with a philosopher and five seeds does not
    raise.  It is left by a [return], or after its last cycle, each cycle
    having used one unused combo of the draws, or it is still selecting
    when the draws are used up, after as many cycles as the draws held
    unused combos. *)
Lemma for_cycles_outcome body mk range st :
  cycle_spec body mk → cycle_total body → cycle_starved body →
  philosophers (vault st) ≠ [] → 5 ≤ length (logic_seeds (vault st)) →
  match for_cycles range body st with
  | (Ok (Some _), _) => True
  | (Ok None, st') => fresh st = fresh st' + length range
  | (Pending, st') =>
      ∃ l, extends st l st' ∧ unresolved_in st l ∧
           length l = fresh st ∧ fresh st < length range
  | (Raise _, _) => False
  end.
Proof.
  intros Hspec Htotal Hstarved. revert st.
  induction range as [|i range IH]; intros st Hp Hl; simpl; [lia|].
  unfold mbind, M_bind. pose proof (Hspec i st) as Hs.
  destruct (fresh st) as [|n] eqn:Hf.
  { destruct (Hstarved i st Hp Hl Hf) as (st1 & Hrun). rewrite Hrun in *.
    exists []. split; [exact Hs|]. split; [constructor|simpl; lia]. }
  destruct (Htotal i st n Hp Hl Hf) as (o & st1 & Hrun & Hv & Hf1).
  rewrite Hrun in *. destruct o as [r|]; [done|].
  destruct Hs as (cr & Hext & Hres).
  assert (Hp1 := Hp). assert (Hl1 := Hl). rewrite <- Hv in Hp1, Hl1.
  specialize (IH st1 Hp1 Hl1). unfold unresolved_in in *. rewrite Hv in IH.
  destruct (for_cycles range body st1) as [[[r|]|e|] st2]; try done.
  - lia.
  - destruct IH as (l & Hext' & Hun & Hlen & Hlt). exists (cr :: l).
    split; [apply (extends_trans st [cr] st1 l st2 Hext Hext')|].
    split; [by constructor|simpl; lia].
Qed.

Lemma lookup_seq_1 n k i : seq 1 n !! k = Some i → i = S k ∧ k < n.
Proof. intros H. apply lookup_seq in H. lia. Qed.

(** What a run that returns has done. *)
Lemma harmonize_returned distilled st r0 st0 :
  harmonize of_str hemisphere_source distilled st = (Ok r0, st0) →
  ∃ l,
    cycle_log st0 = cycle_log st ++ l ∧
    source r0 = hemisphere_source ∧
    ((∃ l0 cr,
        l = l0 ++ [cr] ∧ unresolved_in st l0 ∧
        is_resolved (vault st) (cr_verdict cr) = true ∧
        status r0 = resolved ∧ verdict r0 = cr_verdict cr ∧
        cycles r0 = Some (length l) ∧
        1 ≤ length l ≤ base_cycles st + conflict_cycles st)
     ∨ (unresolved_in st l ∧
        length l = base_cycles st + conflict_cycles st ∧
        status r0 = unresolved ∧ verdict r0 = of_str "UNRESOLVED" ∧
        cycles r0 = Some (base_cycles st + conflict_cycles st))).
Proof.
  revert r0 st0.
  intros r0 st0. unfold harmonize, mbind, M_bind. simpl.
  pose proof (for_cycles_spec _ _ (seq 1 (base_cycles st)) st
                (primary_cycle_spec distilled)) as H1.
  destruct (for_cycles (seq 1 (base_cycles st)) _ st)
    as [[[r|]|e|] st1]; try done; rewrite ?length_seq in *.
  { destruct H1 as (l & cr & i & Hext & Hun & Hres & Hi & ->).
    apply lookup_seq_1 in Hi as [-> Hlt]. simpl. intros [= <- <-].
    exists (l ++ [cr]). split; [apply Hext|]. split; [done|]. left.
    exists l, cr. rewrite length_app. simpl.
    repeat split; try done; try (f_equal; lia); lia. }
  destruct H1 as (l1 & Hext1 & Hun1 & Hlen1).
  destruct Hext1 as (Hv1 & Hb1 & Hc1 & Hlog1 & _).
  pose proof (for_cycles_spec _ _ (seq 1 (conflict_cycles st1)) st1
                (conflict_cycle_spec distilled)) as H2.
  destruct (for_cycles (seq 1 (conflict_cycles st1)) _ st1)
    as [[[r|]|e|] st2]; try done; rewrite ?length_seq in *.
  { unfold unresolved_in in *. rewrite Hv1 in H2.
    destruct H2 as (l & cr & i & Hext & Hun & Hres & Hi & ->).
    apply lookup_seq_1 in Hi as [-> Hlt]. simpl. intros [= <- <-].
    exists (l1 ++ l ++ [cr]).
    destruct Hext as (_ & _ & _ & -> & _). rewrite Hlog1.
    split; [by rewrite <- !app_assoc|]. split; [done|]. left.
    exists (l1 ++ l), cr. rewrite !length_app. simpl.
    split; [by rewrite app_assoc|]. split; [by apply Forall_app|].
    repeat split; try done; try (f_equal; lia); lia. }
  unfold unresolved_in in *. rewrite Hv1 in H2.
  destruct H2 as (l2 & Hext2 & Hun2 & Hlen2).
  destruct Hext2 as (_ & Hb2 & Hc2 & Hlog2 & _). simpl. intros [= <- <-].
  exists (l1 ++ l2).
  split; [by rewrite Hlog2, Hlog1, <- !app_assoc|]. split; [done|]. right.
  rewrite length_app.
  split; [by apply Forall_app|]. split; [lia|].
  repeat split; try done. simpl. f_equal. lia.
Qed.

(** How a run on a vault with a philosopher and five seeds ends: it
    returns, without a resolved verdict only when the draws held an unused
    combo for every cycle, or it is still selecting when the draws are
    used up. *)
Lemma harmonize_outcome distilled st :
  philosophers (vault st) ≠ [] →
  5 ≤ length (logic_seeds (vault st)) →
  match harmonize of_str hemisphere_source distilled st with
  | (Ok r, _) =>
      status r = unresolved → base_cycles st + conflict_cycles st ≤ fresh st
  | (Pending, st') =>
      ∃ l, cycle_log st' = cycle_log st ++ l ∧ unresolved_in st l ∧
           length l = fresh st ∧
           fresh st < base_cycles st + conflict_cycles st
  | (Raise _, _) => False
  end.
Proof.
  intros Hp Hl. unfold harmonize, mbind, M_bind. simpl.
  pose proof (for_cycles_outcome _ _ (seq 1 (base_cycles st)) st
                (primary_cycle_spec distilled) (primary_cycle_total distilled)
                (primary_cycle_starved distilled) Hp Hl) as H1.
  pose proof (for_cycles_spec _ _ (seq 1 (base_cycles st)) st
                (primary_cycle_spec distilled)) as S1.
  destruct (for_cycles (seq 1 (base_cycles st)) _ st)
    as [[[r|]|e|] st1]; try done; rewrite ?length_seq in *.
  { destruct S1 as (l & cr & i & _ & _ & _ & _ & ->). done. }
  2:{ destruct H1 as (l & Hext & Hun & Hlen & Hlt).
      exists l. split; [apply Hext|]. split; [done|]. lia. }
  destruct S1 as (l1 & Hext1 & Hun1 & Hlen1).
  destruct Hext1 as (Hv1 & Hb1 & Hc1 & Hlog1 & _).
  assert (Hp1 := Hp). assert (Hl1 := Hl). rewrite <- Hv1 in Hp1, Hl1.
  pose proof (for_cycles_outcome _ _ (seq 1 (conflict_cycles st1)) st1
                (conflict_cycle_spec distilled) (conflict_cycle_total distilled)
                (conflict_cycle_starved distilled) Hp1 Hl1) as H2.
  pose proof (for_cycles_spec _ _ (seq 1 (conflict_cycles st1)) st1
                (conflict_cycle_spec distilled)) as S2.
  destruct (for_cycles (seq 1 (conflict_cycles st1)) _ st1)
    as [[[r|]|e|] st2]; try done; rewrite ?length_seq in *.
  { destruct S2 as (l & cr & i & _ & _ & _ & _ & ->). done. }
  { simpl. intros _. lia. }
  destruct H2 as (l2 & Hext2 & Hun2 & Hlen2 & Hlt2).
  unfold unresolved_in in *. rewrite Hv1 in Hun2.
  exists (l1 ++ l2).
  destruct Hext2 as (_ & _ & _ & -> & _). rewrite Hlog1.
  split; [by rewrite <- !app_assoc|]. split; [by apply Forall_app|].
  rewrite length_app. lia.
Qed.


(** Claim C2.  In one run of [harmonize], of the left or of the right
    hemisphere, whatever its outcome, the combos passed to
    [vault.evaluate] are pairwise different. *)
Theorem harmonize_no_duplicate_combo distilled st :
  ∃ l, cycle_log (harmonize of_str hemisphere_source distilled st).2
         = cycle_log st ++ l ∧
       NoDup (cr_combo <$> l).
Proof.
  enough (∃ l, extends st l (harmonize of_str hemisphere_source distilled st).2)
    as (l & _ & _ & _ & Hlog & _ & Hnd & _) by eauto.
  unfold harmonize, mbind, M_bind. simpl.
  destruct (for_cycles_extends _ _ (seq 1 (base_cycles st)) st
              (primary_cycle_spec distilled)) as (l1 & Hext1).
  destruct (for_cycles _ _ st) as [[[r|]|e|] st1]; simpl in *; eauto.
  destruct (for_cycles_extends _ _ (seq 1 (conflict_cycles st1)) st1
              (conflict_cycle_spec distilled)) as (l2 & Hext2).
  exists (l1 ++ l2).
  destruct (for_cycles _ _ st1) as [[[r|]|e|] st2]; simpl in *;
    by eapply extends_trans.
Qed.
End Facts.
End HemisphereFacts.

(** ** Exhaustion of the combo space *)

(** With one philosopher and five seeds there is one combo. *)
Lemma single_combo_exhausted (p : string) (logic_seeds : list string) :
  length logic_seeds = 5 →
  exhausted [p] logic_seeds [(p, sorted logic_seeds)].
Proof.
  intros Hlen. split; [done|]. split; [lia|].
  intros [i js] (Hi & Hjs & Hnd & Hlt). simpl in *.
  apply list_elem_of_singleton. unfold combo_of. simpl.
  destruct i as [|i]; [|lia]. f_equal.
  by apply sorted_Permutation, sample_all.
Qed.

(** Once every combo is used the draws serve no selection. *)
Lemma fresh_draws_exhausted philosophers logic_seeds previous_sets rng :
  exhausted philosophers logic_seeds previous_sets →
  Forall (admissible philosophers logic_seeds) rng →
  fresh_draws philosophers logic_seeds previous_sets rng = 0.
Proof.
  intros (_ & _ & Hall). induction 1 as [|d rng Hd _ IH]; simpl; [done|].
  rewrite decide_True; [done|by apply Hall].
Qed.

(** With one philosopher and five seeds the draws serve one selection at
    most. *)
Lemma single_combo_fresh (p : string) (logic_seeds : list string) rng :
  length logic_seeds = 5 →
  Forall (admissible [p] logic_seeds) rng →
  fresh_draws [p] logic_seeds [] rng ≤ 1.
Proof.
  intros Hlen Hrng. pose proof (single_combo_exhausted p logic_seeds Hlen) as Hex.
  destruct Hrng as [|d rng Hd Hrng]; cbn [fresh_draws]; [lia|].
  case_decide as Hin; [by apply elem_of_nil in Hin|].
  destruct Hex as (Hp & Hl & Hall). specialize (Hall d Hd) as Hc.
  apply list_elem_of_singleton in Hc. rewrite Hc. simpl.
  rewrite fresh_draws_exhausted; [lia| |done]. by repeat split.
Qed.


(** ** Loops *)

Lemma for_cycles_app {S R} (range1 range2 : list nat)
    (body : nat → M S (option R)) (st : S) :
  for_cycles (range1 ++ range2) body st =
    match for_cycles range1 body st with
    | (Ok None, st1) => for_cycles range2 body st1
    | other => other
    end.
Proof.
  revert st. induction range1 as [|i range1 IH]; intros st; simpl; [done|].
  unfold mbind, M_bind. by destruct (body i st) as [[[r|]|e|] st1].
Qed.

(** ** The final harmonizer *)

Lemma reflect_original {World Time Verdict : Type}
    (time_time : World → Time * World)
    (result : HarmonizationResult Verdict) (th : Thinker.t Time) (w : World) :
  Thinker.original (Thinker.reflect time_time result th w).1.1 = result.
Proof.
  unfold Thinker.reflect, ISSBrainstem.pulse, ISSBrainstem.unix,
    ISSBrainstem.stardate.
  destruct (time_time w) as [ts w1]. by destruct (time_time w1) as [now w2].
Qed.

Module FinalFacts.
Import Final.
Section Facts.
Context {World Time Distilled Verdict : Type}.
Variable of_str : string → Verdict.
Variable time_time : World → Time * World.
Local Abbreviation state := (Final.state World Time Distilled Verdict).
Implicit Types (st : state) (l : list (CycleRecord Verdict)).

Definition fresh st : nat :=
  fresh_draws (philosophers (vault st)) (logic_seeds (vault st))
              (previous_sets st) (rng st).

(** The attributes no method assigns after [__init__]. *)
Definition frame st st' : Prop :=
  vault st' = vault st ∧ primary_cycles st' = primary_cycles st ∧
  conflict_cycles st' = conflict_cycles st ∧ ollama st' = ollama st.

Lemma frame_refl st : frame st st.
Proof. done. Qed.

Lemma frame_trans st1 st2 st3 : frame st1 st2 → frame st2 st3 → frame st1 st3.
Proof. unfold frame. intuition congruence. Qed.

Definition preserves {A} (m : M state A) : Prop := ∀ st, frame st (m st).2.

Lemma preserves_ret {A} (a : A) : preserves (mret a).
Proof. intros st. apply frame_refl. Qed.

Lemma preserves_bind {A B} (m : M state A) (f : A → M state B) :
  preserves m → (∀ a, preserves (f a)) → preserves (m ≫= f).
Proof.
  intros Hm Hf st. unfold mbind, M_bind. specialize (Hm st).
  destruct (m st) as [[a|e|] st1]; simpl in *; try done.
  eapply frame_trans; [exact Hm|apply Hf].
Qed.

Lemma preserves_gets {A} (f : state → A) : preserves (gets f).
Proof. intros st. apply frame_refl. Qed.

Lemma preserves_pick : preserves _pick_unique_seedset.
Proof.
  intros st. unfold _pick_unique_seedset.
  by destruct (seedset_loop _ _ _ _) as [[r prev'] rng'].
Qed.

Lemma preserves_evaluate fused philosopher logic_set :
  preserves (vault_evaluate fused philosopher logic_set).
Proof. intros st. unfold vault_evaluate. by destruct (evaluate _ _ _ _ _). Qed.

Lemma preserves_reflect result : preserves (thinker_reflect time_time result).
Proof.
  intros st. unfold thinker_reflect.
  by destruct (Thinker.reflect _ _ _ _) as [[refined th] w].
Qed.

Lemma preserves_health_check : preserves ollama_health_check.
Proof. intros st. unfold ollama_health_check. by destruct (health_check _ _). Qed.

Lemma preserves_query prompt : preserves (ollama_query prompt).
Proof. intros st. unfold ollama_query. by destruct (query _ _ _). Qed.

Ltac preserves :=
  repeat first
    [ apply preserves_ret | apply preserves_gets | apply preserves_pick
    | apply preserves_evaluate | apply preserves_reflect
    | apply preserves_health_check | apply preserves_query
    | apply preserves_bind; [|intros ?]
    | match goal with
      | |- preserves (match ?x with _ => _ end) => destruct x
      | |- preserves (let '(_, _) := ?x in _) => destruct x
      end ].

Lemma preserves_primary_cycle fused cycle :
  preserves (primary_cycle time_time fused cycle).
Proof. unfold primary_cycle. preserves. Qed.

Lemma preserves_conflict_cycle left_verdict right_verdict fused conflict :
  preserves (conflict_cycle of_str time_time left_verdict right_verdict
               fused conflict).
Proof. unfold conflict_cycle, ollama_enhancement. preserves. Qed.

Lemma preserves_for_cycles {R} (body : nat → M state (option R)) range :
  (∀ i, preserves (body i)) → preserves (for_cycles range body).
Proof.
  intros Hbody. induction range as [|i range IH]; simpl; preserves; done.
Qed.

Lemma final_pick_fresh st n :
  philosophers (vault st) ≠ [] → 5 ≤ length (logic_seeds (vault st)) →
  fresh st = S n →
  ∃ c rng',
    _pick_unique_seedset st =
      (Ok c, {| vault := vault st; previous_sets := previous_sets st ++ [c];
                primary_cycles := primary_cycles st;
                conflict_cycles := conflict_cycles st;
                thinker := thinker st; ollama := ollama st;
                rng := rng'; world := world st;
                cycle_log := cycle_log st |}) ∧
    fresh_draws (philosophers (vault st)) (logic_seeds (vault st))
                (previous_sets st ++ [c]) rng' = n.
Proof.
  intros Hp Hl Hn. unfold _pick_unique_seedset.
  destruct (seedset_loop_fresh _ _ _ _ _ Hp Hl Hn) as (c & rng' & -> & Hn').
  eauto.
Qed.

(** The vault resolves nothing and Ollama does not answer the health
    check. *)
Definition deaf st : Prop :=
  (∀ verdict, is_resolved (vault st) verdict = false) ∧
  (∀ w, (health_check (ollama st) w).1 = false).

(** A cycle that evaluates once and leaves the loop going. *)
Definition quiet {R} (body : nat → M state (option R)) : Prop :=
  ∀ i st n,
    philosophers (vault st) ≠ [] → 5 ≤ length (logic_seeds (vault st)) →
    deaf st → fresh st = S n →
    ∃ st' cr, body i st = (Ok None, st') ∧ frame st st' ∧ fresh st' = n ∧
              cycle_log st' = cycle_log st ++ [cr].

Lemma primary_cycle_quiet fused : quiet (primary_cycle time_time fused).
Proof.
  intros i st n Hp Hl [Hnever _] Hn. unfold primary_cycle, mbind, M_bind.
  destruct (final_pick_fresh st n Hp Hl Hn) as ([philosopher logic_set] & rng' & -> & Hn').
  unfold vault_evaluate; simpl.
  destruct (evaluate _ _ _ _ _) as [verdict world'] eqn:He. simpl.
  rewrite Hnever. simpl. eexists _, _. by repeat split.
Qed.

Lemma conflict_cycle_quiet left_verdict right_verdict fused :
  quiet (conflict_cycle of_str time_time left_verdict right_verdict fused).
Proof.
  intros i st n Hp Hl [Hnever Hdown] Hn. unfold conflict_cycle, mbind, M_bind.
  destruct (final_pick_fresh st n Hp Hl Hn) as ([philosopher logic_set] & rng' & -> & Hn').
  unfold vault_evaluate; simpl.
  destruct (evaluate _ _ _ _ _) as [verdict world'] eqn:He. simpl.
  rewrite Hnever. simpl. unfold ollama_health_check. simpl.
  specialize (Hdown world'). destruct (health_check _ _) as [healthy w].
  simpl in Hdown. subst healthy. simpl. eexists _, _. by repeat split.
Qed.

Lemma for_cycles_quiet {R} (body : nat → M state (option R)) range st :
  quiet body →
  philosophers (vault st) ≠ [] → 5 ≤ length (logic_seeds (vault st)) →
  deaf st → length range ≤ fresh st →
  ∃ st' l, for_cycles range body st = (Ok None, st') ∧ frame st st' ∧
           fresh st' + length range = fresh st ∧
           cycle_log st' = cycle_log st ++ l ∧ length l = length range.
Proof.
  intros Hbody. revert st.
  induction range as [|i range IH]; intros st Hp Hl Hdeaf Hn; simpl in *.
  { exists st, []. by rewrite app_nil_r. }
  destruct (fresh st) as [|n] eqn:Hf; [lia|].
  destruct (Hbody i st n Hp Hl Hdeaf Hf) as (st1 & cr & Hrun & Hfr & Hf1 & Hlog).
  unfold mbind, M_bind. rewrite Hrun.
  destruct Hfr as (Hv & Hpc & Hcc & Ho). unfold deaf in Hdeaf.
  rewrite <- Hv, <- Ho in Hdeaf. rewrite <- Hv in Hp, Hl.
  destruct (IH st1 Hp Hl Hdeaf) as (st2 & l & -> & Hfr2 & Hf2 & Hlog2 & Hlen);
    [lia|].
  exists st2, (cr :: l). split; [done|].
  split; [by apply (frame_trans st st1 st2)|]. split; [lia|].
  split; [by rewrite Hlog2, Hlog, <- app_assoc|simpl; lia].
Qed.

(** Claim C3, as the source has it.  With a vault that resolves nothing
    and an Ollama that does not answer the health check, [harmonize]
    returns after exactly [primary_cycles + conflict_cycles] calls of
    [vault.evaluate] the reflection of a result with status [unresolved]
    and verdict ["UNRESOLVED_RETURN_TO_RESONATOR"]; that result has no
    ["cycles"] key. *)
Theorem harmonize_unresolved left_verdict right_verdict distilled st :
  philosophers (vault st) ≠ [] →
  5 ≤ length (logic_seeds (vault st)) →
  deaf st →
  primary_cycles st + conflict_cycles st ≤ fresh st →
  ∃ refined st' l,
    harmonize of_str time_time left_verdict right_verdict distilled st
      = (Ok refined, st') ∧
    cycle_log st' = cycle_log st ++ l ∧
    length l = primary_cycles st + conflict_cycles st ∧
    Thinker.original refined =
      {| source := "Final_Core";
         verdict := of_str "UNRESOLVED_RETURN_TO_RESONATOR";
         cycles := None; status := unresolved; ollama_model := None |}.
Proof.
  intros Hp Hl Hdeaf Hn. unfold harmonize, mbind, M_bind. simpl.
  set (fused := {| left := left_verdict; right := right_verdict;
                   distilled := distilled |}).
  destruct (for_cycles_quiet _ (seq 1 (primary_cycles st)) st
              (primary_cycle_quiet fused) Hp Hl Hdeaf)
    as (st1 & l1 & -> & Hfr1 & Hf1 & Hlog1 & Hlen1); [rewrite length_seq; lia|].
  rewrite length_seq in *.
  destruct Hfr1 as (Hv & Hpc & Hcc & Ho). unfold deaf in Hdeaf.
  rewrite <- Hv, <- Ho in Hdeaf. rewrite <- Hv in Hp, Hl.
  destruct (for_cycles_quiet _ (seq 1 (conflict_cycles st1)) st1
              (conflict_cycle_quiet left_verdict right_verdict fused) Hp Hl Hdeaf)
    as (st2 & l2 & -> & Hfr2 & Hf2 & Hlog2 & Hlen2); [rewrite length_seq; lia|].
  rewrite length_seq in *. unfold thinker_reflect.
  pose proof (reflect_original time_time
    {| source := "Final_Core";
       verdict := of_str "UNRESOLVED_RETURN_TO_RESONATOR";
       cycles := None; status := unresolved; ollama_model := None |}
    (thinker st2) (world st2)) as Horig.
  destruct (Thinker.reflect _ _ _ _) as [[refined th] w]. simpl in *.
  eexists _, _, (l1 ++ l2). split; [done|]. simpl.
  split; [by rewrite Hlog2, Hlog1, <- app_assoc|].
  split; [rewrite length_app; lia|done].
Qed.

(** Claim C4.  When the run reaches conflict cycle [c], the verdict of
    that cycle is not resolved, Ollama answers the health check and the
    query succeeds, [harmonize] returns from that cycle the reflection of a
    result with status ["resolved_ollama"] (the escalated resolution),
    Ollama's response as verdict, [cycles = primary_cycles + c] and
    Ollama's model. *)
Theorem harmonize_escalation left_verdict right_verdict distilled st c
    s1 s2 s3 philosopher logic_set verdict w1 w2 w3 response model :
  let fused := {| left := left_verdict; right := right_verdict;
                  distilled := distilled |} in
  for_cycles (seq 1 (primary_cycles st)) (primary_cycle time_time fused) st
    = (Ok None, s1) →
  1 ≤ c ≤ conflict_cycles st →
  for_cycles (seq 1 (c - 1))
    (conflict_cycle of_str time_time left_verdict right_verdict fused) s1
    = (Ok None, s2) →
  _pick_unique_seedset s2 = (Ok (philosopher, logic_set), s3) →
  evaluate (vault st) fused philosopher logic_set (world s3) = (verdict, w1) →
  is_resolved (vault st) verdict = false →
  health_check (ollama st) w1 = (true, w2) →
  query (ollama st)
    {| prompt_left := left_verdict; prompt_right := right_verdict;
       prompt_philosopher := philosopher; prompt_logic_set := logic_set;
       prompt_conflict := c |} w2
    = (QuerySuccess response model, w3) →
  ∃ refined st',
    harmonize of_str time_time left_verdict right_verdict distilled st
      = (Ok refined, st') ∧
    Thinker.original refined =
      {| source := "Final_Core_Ollama"; verdict := of_str response;
         cycles := Some (primary_cycles st + c); status := resolved_ollama;
         ollama_model := Some model |}.
Proof.
  intros fused Hprimary Hc Hconflict Hpick Heval Hres Hhealth Hquery.
  pose proof (preserves_for_cycles _ (seq 1 (primary_cycles st))
                (preserves_primary_cycle fused) st) as Hfr1.
  pose proof (preserves_for_cycles _ (seq 1 (c - 1))
                (preserves_conflict_cycle left_verdict right_verdict fused)
                s1) as Hfr2.
  pose proof (preserves_pick s2) as Hfr3.
  rewrite Hprimary in Hfr1. rewrite Hconflict in Hfr2. rewrite Hpick in Hfr3.
  simpl in *.
  pose proof (frame_trans _ _ _ (frame_trans _ _ _ Hfr1 Hfr2) Hfr3)
    as (Hv & Hpc & Hcc & Ho).
  unfold harmonize, mbind at 1 2, M_bind at 1 2. simpl. fold fused.
  rewrite Hprimary. unfold mbind at 1 2, M_bind at 1 2. simpl.
  replace (seq 1 (conflict_cycles s1))
    with (seq 1 (c - 1) ++ c :: seq (S c) (conflict_cycles st - c)).
  2:{ destruct Hfr1 as (_ & _ & -> & _).
      replace (conflict_cycles st) with ((c - 1) + S (conflict_cycles st - c))
        at 2 by lia.
      rewrite seq_app. simpl. do 3 f_equal; lia. }
  rewrite for_cycles_app, Hconflict. simpl.
  unfold mbind at 1, M_bind at 1. unfold conflict_cycle at 1.
  unfold mbind at 1 2 3 4, M_bind at 1 2 3 4. rewrite Hpick.
  unfold vault_evaluate. rewrite Hv, Heval. simpl. rewrite Hres. simpl.
  unfold mbind, M_bind, ollama_health_check. simpl. rewrite Ho, Hhealth. simpl.
  unfold ollama_enhancement, mbind, M_bind, ollama_query. simpl.
  rewrite Hquery. simpl. unfold thinker_reflect. simpl.
  pose proof (reflect_original time_time
    {| source := "Final_Core_Ollama"; verdict := of_str response;
       cycles := Some (primary_cycles s3 + c); status := resolved_ollama;
       ollama_model := Some model |} (thinker s3) w3) as Horig.
  destruct (Thinker.reflect _ _ _ _) as [[refined th] w]. simpl in *.
  eexists _, _. split; [done|]. by rewrite Horig, Hpc.
Qed.
End Facts.
End FinalFacts.

(** ** Witnesses and counterexamples for the harmonizers *)


(** Claim C1, as the source has it.  Once every combo the generator can
    draw is in [previous_sets], the selection of a hemisphere harmonizer
    and that of the final harmonizer neither return nor raise: whatever
    draws the generator makes, and however many, each one is rejected and
    the loop goes on, with [previous_sets] as it was.  The source has no
    cap on the retries and no exhaustion error. *)
Theorem pick_unique_seedset_never_returns
    {World Input Verdict World' Time Distilled Verdict' : Type}
    (left : Hemisphere.state World Input Verdict)
    (final : Final.state World' Time Distilled Verdict') :
  exhausted (philosophers (Hemisphere.vault left))
            (logic_seeds (Hemisphere.vault left))
            (Hemisphere.previous_sets left) →
  Forall (admissible (philosophers (Hemisphere.vault left))
                     (logic_seeds (Hemisphere.vault left)))
         (Hemisphere.rng left) →
  exhausted (philosophers (Final.vault final))
            (logic_seeds (Final.vault final))
            (Final.previous_sets final) →
  Forall (admissible (philosophers (Final.vault final))
                     (logic_seeds (Final.vault final)))
         (Final.rng final) →
  (Hemisphere._pick_unique_seedset left).1 = Pending ∧
  Hemisphere.previous_sets (Hemisphere._pick_unique_seedset left).2
    = Hemisphere.previous_sets left ∧
  (Final._pick_unique_seedset final).1 = Pending ∧
  Final.previous_sets (Final._pick_unique_seedset final).2
    = Final.previous_sets final.
Proof.
  intros (Hp & Hl & Hall) Hrng (Hp' & Hl' & Hall') Hrng'.
  unfold Hemisphere._pick_unique_seedset, Final._pick_unique_seedset.
  rewrite !seedset_loop_exhausted; try done.
  - eapply Forall_impl; [exact Hrng'|exact Hall'].
  - eapply Forall_impl; [exact Hrng|exact Hall].
Qed.

Lemma pick_unique_seedset_never_returns_witness :
  (Hemisphere._pick_unique_seedset
     (Example.used_up [Draw 0 [4; 3; 2; 1; 0]; Draw 0 [0; 2; 4; 1; 3]])).1
    = Pending ∧
  Hemisphere.previous_sets
    (Hemisphere._pick_unique_seedset
       (Example.used_up [Draw 0 [4; 3; 2; 1; 0]; Draw 0 [0; 2; 4; 1; 3]])).2
    = [("spinoza", sorted Example.names5)] ∧
  (Final._pick_unique_seedset
     (Example.used_up_final [Draw 0 [1; 0; 2; 3; 4]])).1 = Pending ∧
  Final.previous_sets
    (Final._pick_unique_seedset
       (Example.used_up_final [Draw 0 [1; 0; 2; 3; 4]])).2
    = [("spinoza", sorted Example.names5)].
Proof.
  apply (pick_unique_seedset_never_returns
           (Example.used_up [Draw 0 [4; 3; 2; 1; 0]; Draw 0 [0; 2; 4; 1; 3]])
           (Example.used_up_final [Draw 0 [1; 0; 2; 3; 4]])).
  - apply single_combo_exhausted. reflexivity.
  - apply (bool_decide_unpack _). vm_compute. reflexivity.
  - apply single_combo_exhausted. reflexivity.
  - apply (bool_decide_unpack _). vm_compute. reflexivity.
Defined.

(** Counterexample to claim C1: on a vault of one philosopher and five
    seeds, whose combo space of one combo is used after the first cycle,
    no number of retries makes the selection raise. *)
Lemma pick_unique_seedset_no_bound :
  ¬ ∃ bound : nat, ∀ rng,
      Forall (admissible ["spinoza"] Example.names5) rng →
      bound ≤ length rng →
      ∃ e st', Hemisphere._pick_unique_seedset (Example.used_up rng)
               = (Raise e, st').
Proof.
  intros (bound & Hraise).
  destruct (Hraise (replicate bound (Draw 0 [0; 1; 2; 3; 4])))
    as (e & st' & Hrun).
  - apply Forall_replicate. apply (bool_decide_unpack _). vm_compute. reflexivity.
  - by rewrite length_replicate.
  - unfold Hemisphere._pick_unique_seedset in Hrun.
    rewrite seedset_loop_exhausted in Hrun; try done.
    + simpl. apply Forall_replicate. apply (bool_decide_unpack _).
      vm_compute. reflexivity.
Qed.


(** The same in a whole run: after the first cycle the left harmonizer
    is still selecting when forty draws are used up. *)
Lemma single_combo_run_pending :
  (HarmonizerLeft_harmonize Example.of_str tt
     (Hemisphere.__init__ (Example.never_vault ["spinoza"] Example.names5)
        (replicate 40 (Draw 0 [0; 1; 2; 3; 4])) Example.world0)).1 = Pending.
Proof. vm_compute. reflexivity. Qed.

(** Counterexample to claim C5: a vault of one philosopher and five seeds
    whose evaluator resolves nothing.  After the first attempt no combo is
    unused, and whatever draws the generator makes, and however many, the
    left harmonizer does not return: there is no return after ten attempts
    with status ["unresolved"]. *)
Lemma harmonize_single_combo_never_returns :
  ¬ ∃ rng r st',
      Forall (admissible ["spinoza"] Example.names5) rng ∧
      HarmonizerLeft_harmonize Example.of_str tt
        (Hemisphere.__init__ (Example.never_vault ["spinoza"] Example.names5)
           rng Example.world0) = (Ok r, st').
Proof.
  intros (rng & r & st' & Hrng & Hrun).
  pose proof (HemisphereFacts.harmonize_outcome Example.of_str "Left_Hemisphere" tt
    (Hemisphere.__init__ (Example.never_vault ["spinoza"] Example.names5)
       rng Example.world0)) as Hout.
  unfold HarmonizerLeft_harmonize in Hrun.
  destruct (HemisphereFacts.harmonize_returned _ _ _ _ _ _ Hrun)
    as (l & _ & _ & [(l0 & cr & _ & _ & Hres & _)|(_ & _ & Hst & _)]);
    [done|].
  rewrite Hrun in Hout. specialize (Hout ltac:(done) ltac:(simpl; lia) Hst).
  pose proof (single_combo_fresh "spinoza" Example.names5 rng eq_refl Hrng).
  unfold HemisphereFacts.fresh in Hout. simpl in Hout. lia.
Qed.



(** The stub resolving on primary cycle 3: [cycles = 3], status
    ["resolved"]. *)
Lemma left3_resolves_on_cycle_3 :
  ∃ st', HarmonizerLeft_harmonize Example.of_str tt Example.left3 =
    (Ok {| source := "Left_Hemisphere"; verdict := "YES"; cycles := Some 3;
           status := resolved; ollama_model := None |}, st').
Proof. eexists. vm_compute. reflexivity. Qed.


Lemma harmonize_unresolved_witness :
  ∃ refined st' l,
    Final.harmonize Example.of_str Example.time_time "L" "R" tt Example.final_deaf
      = (Ok refined, st') ∧
    Final.cycle_log st' = Final.cycle_log Example.final_deaf ++ l ∧
    length l = Final.primary_cycles Example.final_deaf + Final.conflict_cycles Example.final_deaf ∧
    Thinker.original refined =
      {| source := "Final_Core";
         verdict := Example.of_str "UNRESOLVED_RETURN_TO_RESONATOR";
         cycles := None; status := unresolved; ollama_model := None |}.
Proof.
  apply (FinalFacts.harmonize_unresolved Example.of_str Example.time_time
           "L" "R" tt Example.final_deaf).
  - vm_compute. discriminate.
  - vm_compute. lia.
  - split; intros; reflexivity.
  - vm_compute. lia.
Defined.


Lemma harmonize_escalation_witness :
  ∃ refined st',
    Final.harmonize Example.of_str Example.time_time "L" "R" tt Example.final_second
      = (Ok refined, st') ∧
    Thinker.original refined =
      {| source := "Final_Core_Ollama";
         verdict := Example.of_str "common ground";
         cycles := Some (Final.primary_cycles Example.final_second + 2);
         status := resolved_ollama;
         ollama_model := Some "phi3:mini" |}.
Proof.
  eapply (FinalFacts.harmonize_escalation Example.of_str Example.time_time
            "L" "R" tt Example.final_second 2).
  - vm_compute. reflexivity.
  - vm_compute. lia.
  - vm_compute. reflexivity.
  - vm_compute. reflexivity.
  - vm_compute. reflexivity.
  - reflexivity.
  - vm_compute. reflexivity.
  - vm_compute. reflexivity.
Defined.

(** ** The time oracle and its users *)

Section Pulses.
Context {World Time : Type}.
Variable time_time : World → Time * World.

(** One oracle never reuses a cycle: each pulse carries the successor of
    the counter, which becomes the counter. *)
Lemma pulse_increments (self : ISSBrainstem.t Time) (w : World) :
  let '(p, self', _) := ISSBrainstem.pulse time_time self w in
  ISSBrainstem.pulse_cycle p = S (ISSBrainstem._cycle self) ∧
  ISSBrainstem._cycle self' = S (ISSBrainstem._cycle self).
Proof.
  unfold ISSBrainstem.pulse, ISSBrainstem.unix.
  destruct (time_time w) as [ts w']. simpl. lia.
Qed.

(** Claim C9 on the source: [Thinker.__init__] and
    [TaskOrchestrator.__init__] each build an [ISSBrainstem] of their own,
    so the first pulse of a thinker and the first pulse of an orchestrator
    of the same process both carry cycle 1. *)
Theorem pulse_cycle_reused {Verdict Any : Type} (w : World)
    (result : HarmonizationResult Verdict)
    (item : gmap string (TaskOrchestrator.value Time Any)) :
  let '(th, w) := Thinker.__init__ time_time w in
  let '(orchestrator, w) := TaskOrchestrator.__init__ time_time w in
  let '(refined, _, w) := Thinker.reflect time_time result th w in
  let '(done, _, _) :=
    TaskOrchestrator.call time_time "mark_done" [item] orchestrator w in
  ISSBrainstem.pulse_cycle (Thinker.pulse refined) = 1 ∧
  ∃ p, done = Ok (TaskOrchestrator.ReturnedPulse p) ∧
       ISSBrainstem.pulse_cycle p = 1.
Proof.
  unfold Thinker.__init__, TaskOrchestrator.__init__, ISSBrainstem.__init__,
    Thinker.reflect, TaskOrchestrator.call, TaskOrchestrator.apply,
    TaskOrchestrator.mark_done_body, ISSBrainstem.pulse, ISSBrainstem.unix,
    ISSBrainstem.stardate.
  destruct (time_time w) as [t1 w1]. destruct (time_time w1) as [t2 w2].
  destruct (time_time w2) as [t3 w3]. destruct (time_time w3) as [t4 w4].
  simpl. destruct (time_time w4) as [t5 w5]. eauto.
Qed.

(** Claim C10 on the source: [__init__] binds the deque to the attribute
    [queue], which hides the method of that name, so [self.queue(item)]
    calls the deque and raises [TypeError]; nothing is stamped or
    appended. *)
Theorem queue_raises_TypeError {Any : Type} (w : World)
    (item : gmap string (TaskOrchestrator.value Time Any)) :
  let '(orchestrator, w) := TaskOrchestrator.__init__ time_time w in
  TaskOrchestrator.call time_time "queue" [item] orchestrator w
    = (Raise TypeError, orchestrator, w).
Proof.
  unfold TaskOrchestrator.__init__, ISSBrainstem.__init__.
  by destruct (time_time w) as [t1 w1].
Qed.

(** [next] on an empty queue returns the empty dict and changes nothing. *)
Lemma next_on_empty_queue {Any : Type} (w : World) :
  let '(orchestrator, w) := @TaskOrchestrator.__init__ _ _ Any time_time w in
  TaskOrchestrator.call time_time "next" [] orchestrator w
    = (Ok (TaskOrchestrator.ReturnedItem ∅), orchestrator, w).
Proof.
  unfold TaskOrchestrator.__init__, ISSBrainstem.__init__.
  by destruct (time_time w) as [t1 w1].
Qed.

(** What the two function bodies do when they are run: the item queued is
    the item returned, stamped twice, the second cycle above the first. *)
Lemma queue_body_then_next_body {Any : Type}
    (self : TaskOrchestrator.t Time Any) (w : World)
    (item : gmap string (TaskOrchestrator.value Time Any)) :
  TaskOrchestrator.queue self = [] →
  let '(queued, self, w) := TaskOrchestrator.queue_body time_time item self w in
  let '(got, _, _) := TaskOrchestrator.next_body time_time self w in
  ∃ p p' item',
    queued = Ok (TaskOrchestrator.ReturnedPulse p) ∧
    got = Ok (TaskOrchestrator.ReturnedItem item') ∧
    item' !! "queued_at" = Some (TaskOrchestrator.PulseValue p) ∧
    item' !! "executed_at" = Some (TaskOrchestrator.PulseValue p') ∧
    ISSBrainstem.pulse_cycle p < ISSBrainstem.pulse_cycle p' ∧
    ∀ key, key ≠ "queued_at" → key ≠ "executed_at" → item' !! key = item !! key.
Proof.
  intros Hempty.
  unfold TaskOrchestrator.queue_body, TaskOrchestrator.next_body,
    ISSBrainstem.pulse, ISSBrainstem.unix.
  destruct (time_time w) as [t1 w1]. simpl. rewrite Hempty. simpl.
  destruct (time_time w1) as [t2 w2].
  eexists _, _, _. split; [done|]. split; [done|].
  split; [by simplify_map_eq|]. split; [by simplify_map_eq|].
  split; [simpl; lia|]. intros key H1 H2. by simplify_map_eq.
Qed.
End Pulses.

(** ** The synaptic resonator *)

Module ResonatorFacts.
Import Resonator.
Local Open Scope Q_scope.

Lemma foldl_Qplus (a : Q) (values : list Q) :
  foldl Qplus a values == a + sum values.
Proof.
  unfold sum. revert a. induction values as [|x values IH]; intros a; simpl.
  - ring.
  - rewrite (IH (a + x)), (IH (0 + x)). ring.
Qed.

Lemma sum_cons (x : Q) (values : list Q) : sum (x :: values) == x + sum values.
Proof. unfold sum at 1. simpl. rewrite foldl_Qplus. ring. Qed.

Lemma sum_app (values1 values2 : list Q) :
  sum (values1 ++ values2) == sum values1 + sum values2.
Proof.
  induction values1 as [|x values1 IH]; simpl.
  - unfold sum at 2. simpl. ring.
  - rewrite !sum_cons, IH. ring.
Qed.


Lemma inject_length_cons {A} (x : A) (l : list A) :
  inject_Z (Z.of_nat (length (x :: l))) == 1 + inject_Z (Z.of_nat (length l)).
Proof.
  simpl length. rewrite Nat2Z.inj_succ, <- Z.add_1_l, inject_Z_plus. reflexivity.
Qed.

Lemma sum_bounds (lo hi : Q) (values : list Q) :
  Forall (λ x, lo <= x <= hi) values →
  inject_Z (Z.of_nat (length values)) * lo <= sum values
    <= inject_Z (Z.of_nat (length values)) * hi.
Proof.
  induction 1 as [|x values [Hlo Hhi] _ [IHlo IHhi]].
  - unfold sum. simpl. change (inject_Z (Z.of_nat 0)) with 0. lra.
  - rewrite sum_cons, inject_length_cons.
    set (n := inject_Z (Z.of_nat (length values))) in *. nra.
Qed.

(** A list of [3 * n] values is its three slices of [n] values. *)
Lemma three_slices (n : nat) (values : list Q) :
  length values = (3 * n)%nat →
  sum values == sum (take n values) + sum (take n (drop n values))
                + sum (take n (drop (n + n) values)) ∧
  length (take n values) = n ∧ length (take n (drop n values)) = n ∧
  length (take n (drop (n + n) values)) = n.
Proof.
  intros Hlen. split.
  - rewrite <- (take_drop n values) at 1.
    rewrite <- (take_drop n (drop n values)) at 1.
    rewrite drop_drop, !sum_app.
    rewrite (take_ge (drop (n + n) values)); [ring|].
    rewrite length_drop. lia.
  - rewrite !length_take, !length_drop. lia.
Qed.

Lemma aggregate_two (a b : Q) : aggregate [a; b] == (a + b) / 2.
Proof.
  unfold aggregate, sum. simpl. change (inject_Z (Z.of_nat 2)) with 2. field.
Qed.

Lemma aggregate_three (a b c : Q) : aggregate [a; b; c] == (a + b + c) / 3.
Proof.
  unfold aggregate, sum. simpl. change (inject_Z (Z.of_nat 3)) with 3. field.
Qed.

(** The final node is the mean of all the values. *)
Lemma fan_pass_mean (values : list Q) :
  length values = 2340%nat →
  out1 (_fan_pass values) == sum values / 2340.
Proof.
  intros Hlen.
  destruct (three_slices 780 values Hlen) as (Hsum & H6 & H5 & H4).
  unfold _fan_pass, slice. cbv zeta. cbn [out1].
  change (780 - 0)%nat with 780%nat. change (1560 - 780)%nat with 780%nat.
  change (2340 - 1560)%nat with 780%nat. change 1560%nat with (780 + 780)%nat.
  rewrite drop_0.
  set (s6 := take 780 values) in *.
  set (s5 := take 780 (drop 780 values)) in *.
  set (s4 := take 780 (drop (780 + 780) values)) in *.
  assert (∀ s, length s = 780%nat → aggregate s == sum s / 780) as Hagg.
  { intros s Hs. destruct s; [discriminate Hs|].
    unfold aggregate. by rewrite Hs. }
  pose proof (Hagg s6 H6) as E6. pose proof (Hagg s5 H5) as E5.
  pose proof (Hagg s4 H4) as E4.
  rewrite aggregate_two, aggregate_three, E6, E5, E4, Hsum.
  field.
Qed.

Lemma fan_pass_bounds (lo hi : Q) (values : list Q) :
  length values = 2340%nat →
  Forall (λ x, lo <= x <= hi) values →
  lo <= out1 (_fan_pass values) <= hi.
Proof.
  intros Hlen Hall. rewrite (fan_pass_mean values Hlen).
  destruct (sum_bounds lo hi values Hall) as [Hlo Hhi].
  rewrite Hlen in Hlo, Hhi.
  change (inject_Z (Z.of_nat 2340)) with 2340 in *.
  split.
  - apply Qle_shift_div_l; [reflexivity|]. by rewrite Qmult_comm.
  - apply Qle_shift_div_r; [reflexivity|]. by rewrite Qmult_comm.
Qed.

(** *** The perturbation of one firing *)






(** Without bias and without mod a firing is the identity. *)
Lemma fire_identity (self : Synapse) (incoming r : Q) :
  bias self == 0 → mod_ self == 0 → fire self incoming r == incoming.
Proof.
  intros Hb Hm. unfold fire, uniform. repeat case_decide; rewrite ?Hb, ?Hm.
  - ring.
  - ring.
  - field.
  - reflexivity.
Qed.

(** For a bias and mods that are not negative, [maxPerturbation] is the
    largest of [bias + mod] (intuition), [2 * mod] (induction) and [mod]
    (deduction). *)
Lemma maxPerturbation_nonneg (self : SynapticResonator) :
  let bias := default 0 (intuitive_seed self !! "bias"%string) in
  let mod_intuition := default (2 # 100) (intuitive_seed self !! "mod"%string) in
  let mod_induction := default (2 # 100) (inductive_seed self !! "mod"%string) in
  let mod_deduction := default (2 # 100) (deductive_seed self !! "mod"%string) in
  0 <= bias → 0 <= mod_intuition → 0 <= mod_induction → 0 <= mod_deduction →
  maxPerturbation self ==
    Qmax (bias + mod_intuition) (Qmax (2 * mod_induction) mod_deduction).
Proof.
  intros bias m1 m2 m3 Hb H1 H2 H3. unfold maxPerturbation.
  fold bias m1 m2 m3. by rewrite !Qabs_pos.
Qed.

(** *** The bank of synapses *)

Section Bank.
Variable hemisphere : string.
Variable read_seed : string → Seed.
Variable shuffle : list Synapse → list Synapse.
Hypothesis shuffle_Permutation : ∀ l, shuffle l ≡ₚ l.

Let self : SynapticResonator := __init__ hemisphere read_seed shuffle.

Lemma synapses_length : length (synapses self) = 2340%nat.
Proof using shuffle_Permutation.
  unfold self, __init__, _build_synapses. cbn [synapses].
  rewrite shuffle_Permutation. vm_compute. reflexivity.
Qed.

(** What holds of the three synapses built from the seeds holds of the
    whole bank, whatever the shuffle. *)
Lemma synapses_Forall (P : Synapse → Prop) :
  P (Synapse__init__ "intuition" (intuitive_seed self)) →
  P (Synapse__init__ "induction" (inductive_seed self)) →
  P (Synapse__init__ "deduction" (deductive_seed self)) →
  Forall P (synapses self).
Proof using shuffle_Permutation.
  intros H1 H2 H3. unfold self, __init__, _build_synapses. cbn [synapses].
  rewrite shuffle_Permutation. apply Forall_concat, Forall_replicate.
  by repeat constructor.
Qed.

Lemma fired_Forall (P : Q → Prop) (R : Synapse → Prop)
    (stimulus_value : Q) (random : nat → Q) :
  Forall R (synapses self) →
  (∀ i syn, R syn → P (fire syn stimulus_value (random i))) →
  Forall P (imap (λ i syn, fire syn stimulus_value (random i)) (synapses self)).
Proof.
  intros HR HP. apply Forall_lookup. intros i x.
  rewrite list_lookup_imap. intros Hx.
  apply fmap_Some in Hx as (syn & Hsyn & ->).
  apply HP. by apply (Forall_lookup_1 _ _ _ _ HR Hsyn).
Qed.


(** Claim C8.  With [bias = 0] and [mod = 0] in every seed, the verdict of
    [resonate] on the stimulus 0.5 is 0.5. *)
Theorem resonate_zero_perturbation (random : nat → Q) :
  (∀ name, default 0 (read_seed name !! "bias"%string) == 0 ∧
           default (2 # 100) (read_seed name !! "mod"%string) == 0) →
  synaptic_verdict (resonate self (1 # 2) random) == 1 # 2.
Proof using shuffle_Permutation.
  intros Hseed. unfold resonate. cbv zeta. cbn [synaptic_verdict].
  apply Qle_antisym;
    apply (fan_pass_bounds (1 # 2) (1 # 2));
    try (by rewrite length_imap, synapses_length);
    apply (fired_Forall _ (λ syn, bias syn == 0 ∧ mod_ syn == 0));
    try (apply synapses_Forall; apply Hseed);
    intros i syn [Hb Hm]; rewrite (fire_identity syn _ _ Hb Hm); lra.
Qed.
End Bank.

End ResonatorFacts.

(** *** Instances *)

Module ResonatorWitnesses.
Import Resonator ResonatorExample.
Local Open Scope Q_scope.


Lemma resonate_zero_perturbation_witness :
  synaptic_verdict
    (resonate (__init__ "left" zero_seeds reverse) (1 # 2) (λ _, 7 # 10))
    == 1 # 2.
Proof.
  apply (ResonatorFacts.resonate_zero_perturbation "left" zero_seeds reverse
           reverse_Permutation (λ _, 7 # 10)).
  intros name. vm_compute. split; reflexivity.
Defined.


(** On these values the final node is 1/2340, before and after the
    reversal. *)
Lemma fan_pass_values :
  out1 (_fan_pass values) == 1 # 2340 ∧
  out1 (_fan_pass (reverse values)) == 1 # 2340.
Proof. vm_compute. split; reflexivity. Qed.
End ResonatorWitnesses.

(** ** Drift detection, stardates and anchors *)

Module ISSBrainstemRestFacts.
Import ISSBrainstemRest.
Section Facts.
Context {World : Type}.
Variable time_time : World → Q * World.
Variable sha256_hexdigest : string → string.

(** On one instance, whatever calls are made and whatever the clock
    reads, the pulses carry the cycles that follow the counter, one by
    one: strictly increasing and never reused. *)
Theorem pulse_cycles_consecutive (cs : list call) (self : ISSBrainstem.t Q)
    (w : World) :
  let '(rs, self', _) := do_calls time_time cs self w in
  pulse_cycles rs
    = seq (S (ISSBrainstem._cycle self)) (length (filter is_pulse cs)) ∧
  ISSBrainstem._cycle self'
    = ISSBrainstem._cycle self + length (filter is_pulse cs).
Proof.
  revert self w. induction cs as [|c cs IH]; intros self w; simpl.
  { split; [done|lia]. }
  destruct c; simpl;
    unfold ISSBrainstem.unix, ISSBrainstem.pulse, ISSBrainstem.stardate,
      detect_drift, ISSBrainstem.unix;
    destruct (time_time w) as [now w1]; simpl.
  - specialize (IH self w1). by destruct (do_calls _ _ _ _) as [[rs self'] w'].
  - match goal with |- context [do_calls _ _ ?s _] => specialize (IH s w1) end.
    destruct (do_calls _ _ _ _) as [[rs self'] w']. simpl in *.
    destruct IH as [-> ->]. rewrite Nat.add_1_r. split; [done|lia].
  - specialize (IH self w1). by destruct (do_calls _ _ _ _) as [[rs self'] w'].
  - match goal with |- context [do_calls _ _ ?s _] => specialize (IH s w1) end.
    by destruct (do_calls _ _ _ _) as [[rs self'] w'].
Qed.

(** Only [detect_drift] moves the reference time. *)
Lemma do_calls_last_ts (cs : list call) (self : ISSBrainstem.t Q) (w : World) :
  forallb (λ c, negb (is_detect_drift c)) cs = true →
  ISSBrainstem._last_ts (do_calls time_time cs self w).1.2
    = ISSBrainstem._last_ts self.
Proof.
  revert self w. induction cs as [|c cs IH]; intros self w; simpl; [done|].
  intros [Hc Hcs]%andb_prop.
  destruct c; try done; simpl;
    unfold ISSBrainstem.unix, ISSBrainstem.pulse, ISSBrainstem.stardate,
      ISSBrainstem.unix;
    destruct (time_time w) as [now w1]; simpl.
  - specialize (IH self w1 Hcs). by destruct (do_calls _ _ _ _) as [[rs self'] w'].
  - match goal with |- context [do_calls _ _ ?s _] => specialize (IH s w1 Hcs) end.
    by destruct (do_calls _ _ _ _) as [[rs self'] w'].
  - specialize (IH self w1 Hcs). by destruct (do_calls _ _ _ _) as [[rs self'] w'].
Qed.

(** [detect_drift] measures the time since the previous call of
    [detect_drift] on the instance: whatever other calls read the clock in
    between, it answers whether the two readings differ, in either
    direction, by more than the threshold. *)
Theorem detect_drift_interval (threshold1 threshold2 : Q) (between : list call)
    (self : ISSBrainstem.t Q) (w : World) :
  forallb (λ c, negb (is_detect_drift c)) between = true →
  let '(_, self1, w1) := detect_drift time_time threshold1 self w in
  let '(_, self2, w2) := do_calls time_time between self1 w1 in
  (detect_drift time_time threshold2 self2 w2).1.1
    = negb (Qle_bool (Qabs ((time_time w2).1 - (time_time w).1)) threshold2).
Proof.
  intros Hbetween. unfold detect_drift at 1.
  destruct (time_time w) as [now1 w1] eqn:Hw. simpl.
  pose proof (do_calls_last_ts between
    {| ISSBrainstem._cycle := ISSBrainstem._cycle self;
       ISSBrainstem._last_ts := now1 |} w1 Hbetween) as Hts.
  destruct (do_calls _ _ _ _) as [[rs self2] w2]. simpl in Hts.
  unfold detect_drift. destruct (time_time w2) as [now2 w3]. simpl.
  by rewrite Hts.
Qed.

Lemma string_app_assoc (s1 s2 s3 : string) :
  (s1 +:+ s2) +:+ s3 = s1 +:+ (s2 +:+ s3).
Proof.
  unfold String.app. induction s1 as [|c s1 IH]; [done|]. simpl. by f_equal.
Qed.

Lemma join_cons (sep field : string) (fields : list string) :
  fields ≠ [] → join sep (field :: fields) = field +:+ sep +:+ join sep fields.
Proof. by destruct fields. Qed.

(** The anchor of a single field is its digest, and the anchor does not
    tell where one field ends and the next begins: a field that holds the
    separator is anchored as two fields. *)
Theorem anchor_state_separator (a b : string) (rest : list string) :
  anchor_state sha256_hexdigest [a] = digest sha256_hexdigest a ∧
  anchor_state sha256_hexdigest ((a +:+ "|" +:+ b) :: rest)
    = anchor_state sha256_hexdigest (a :: b :: rest).
Proof.
  split; [done|]. unfold anchor_state. f_equal.
  rewrite (join_cons "|" a (b :: rest)) by done.
  destruct rest as [|c rest]; [done|].
  rewrite !(join_cons "|" _ (c :: rest)) by done.
  by rewrite !string_app_assoc.
Qed.


End Facts.
End ISSBrainstemRestFacts.

(** ** The task queue over sequences of calls *)

Module TaskOrchestratorFacts.
Import TaskOrchestratorRuns.
Section Facts.
Context {World Time Any : Type}.
Variable time_time : World → Time * World.
Local Abbreviation item := (gmap string (TaskOrchestrator.value Time Any)).
Local Abbreviation returned := (TaskOrchestrator.returned Time Any).

(** Whatever the state of the orchestrator and whatever the arguments,
    [self.queue(...)] raises [TypeError] and changes neither the
    orchestrator nor the clock. *)
Lemma queue_always_raises (args : list item)
    (self : TaskOrchestrator.t Time Any) (w : World) :
  TaskOrchestrator.call time_time "queue" args self w
    = (Raise TypeError, self, w).
Proof. done. Qed.

Lemma call_keeps_empty name (args : list item)
    (self : TaskOrchestrator.t Time Any) (w : World) :
  TaskOrchestrator.queue self = [] →
  TaskOrchestrator.queue
    (TaskOrchestrator.call time_time name args self w).1.2 = [].
Proof.
  intros Hempty. unfold TaskOrchestrator.call, TaskOrchestrator.getattr,
    TaskOrchestrator.instance_dict, TaskOrchestrator.class_dict.
  repeat case_decide; try done; subst; simpl.
  - destruct args as [|i [|]]; try done. unfold TaskOrchestrator.next_body.
    by rewrite Hempty.
  - destruct args as [|i [|]]; try done.
    unfold TaskOrchestrator.mark_done_body.
    by destruct (ISSBrainstem.pulse _ _ _) as [[p iss'] w'].
Qed.

(** No call of a method puts anything in the queue: from a queue that is
    empty, as [__init__] leaves it, every call of [queue] raises
    [TypeError], every call of [next] returns the empty dict, and the
    queue is empty at the end. *)
Theorem queue_stays_empty (cs : list (string * list item))
    (self : TaskOrchestrator.t Time Any) (w : World) :
  TaskOrchestrator.queue self = [] →
  let '(rs, self', _) := calls time_time cs self w in
  TaskOrchestrator.queue self' = [] ∧
  Forall2 (λ c r,
      (c.1 = "queue" → r = Raise TypeError) ∧
      (c = ("next", []) → r = Ok (TaskOrchestrator.ReturnedItem ∅)))
    cs rs.
Proof.
  revert self w. induction cs as [|[name args] cs IH]; intros self w Hempty.
  { simpl. by split. }
  simpl. pose proof (call_keeps_empty name args self w Hempty) as Hkeep.
  assert (name = "queue" →
          (TaskOrchestrator.call time_time name args self w).1.1
            = Raise TypeError) as Hqueue by (by intros ->).
  assert ((name, args) = ("next", []) →
          (TaskOrchestrator.call time_time name args self w).1.1
            = Ok (TaskOrchestrator.ReturnedItem ∅)) as Hnext.
  { intros [= -> ->]. unfold TaskOrchestrator.call. simpl.
    unfold TaskOrchestrator.next_body. by rewrite Hempty. }
  destruct (TaskOrchestrator.call _ _ _ _ _) as [[r self1] w1]. simpl in *.
  specialize (IH self1 w1 Hkeep).
  destruct (calls _ _ _ _) as [[rs self2] w2].
  destruct IH as [Hq Hall]. split; [done|]. by constructor.
Qed.

(** The items a deque holds come out of [next] in the order they are in,
    each as it was but for ["executed_at"], stamped with the cycles that
    follow the counter; then the deque is empty. *)
Theorem drain_fifo (self : TaskOrchestrator.t Time Any) (w : World) :
  let '(rs, self', _) :=
    drain time_time (length (TaskOrchestrator.queue self)) self w in
  TaskOrchestrator.queue self' = [] ∧
  length rs = length (TaskOrchestrator.queue self) ∧
  ∀ k i, TaskOrchestrator.queue self !! k = Some i →
    ∃ p, rs !! k = Some (Ok (TaskOrchestrator.ReturnedItem
                   (<["executed_at" := TaskOrchestrator.PulseValue p]> i))) ∧
         ISSBrainstem.pulse_cycle p
           = ISSBrainstem._cycle (TaskOrchestrator.iss self) + S k.
Proof.
  destruct self as [iss q]. simpl. revert iss w.
  induction q as [|i q IH]; intros iss w; simpl; [done|].
  unfold TaskOrchestrator.call at 1. simpl.
  unfold TaskOrchestrator.next_body at 1. simpl.
  unfold ISSBrainstem.pulse, ISSBrainstem.unix. destruct (time_time w) as [ts w1].
  simpl.
  specialize (IH {| ISSBrainstem._cycle := ISSBrainstem._cycle iss + 1;
                    ISSBrainstem._last_ts := ISSBrainstem._last_ts iss |} w1).
  destruct (drain _ _ _ _) as [[rs self'] w'].
  destruct IH as (Hq & Hlen & Hall).
  split; [done|]. split; [simpl; by rewrite Hlen|].
  intros [|k] j Hj; simpl in *.
  - injection Hj as ->. eexists. split; [done|]. simpl. lia.
  - destruct (Hall k j Hj) as (p & Hp & Hc). exists p. split; [done|]. lia.
Qed.

(** After the items, [next] returns the empty dict and issues no pulse. *)
Lemma next_body_empty (self : TaskOrchestrator.t Time Any) (w : World) :
  TaskOrchestrator.queue self = [] →
  TaskOrchestrator.next_body time_time self w
    = (Ok (TaskOrchestrator.ReturnedItem ∅), self, w).
Proof. intros Hempty. unfold TaskOrchestrator.next_body. by rewrite Hempty. Qed.
End Facts.
End TaskOrchestratorFacts.

(** ** The history of a harmonizer *)

Module HemisphereHistory.
Import Hemisphere HemisphereFacts.
Section Facts.
Context {World Input Verdict : Type}.
Variable of_str : string → Verdict.
Variable hemisphere_source : string.
Local Abbreviation state := (Hemisphere.state World Input Verdict).
Implicit Types (st : state) (l : list (CycleRecord Verdict)).

Lemma harmonize_extends distilled st :
  ∃ l, extends st l (harmonize of_str hemisphere_source distilled st).2.
Proof.
  unfold harmonize, mbind, M_bind. simpl.
  destruct (for_cycles_extends _ _ (seq 1 (base_cycles st)) st
              (primary_cycle_spec hemisphere_source distilled)) as (l1 & Hext1).
  destruct (for_cycles _ _ st) as [[[r|]|e|] st1]; simpl in *; eauto.
  destruct (for_cycles_extends _ _ (seq 1 (conflict_cycles st1)) st1
              (conflict_cycle_spec hemisphere_source distilled)) as (l2 & Hext2).
  exists (l1 ++ l2).
  destruct (for_cycles _ _ st1) as [[[r|]|e|] st2]; simpl in *;
    by eapply extends_trans.
Qed.

(** [previous_sets] lives as long as the harmonizer: over two runs in a
    row, whatever their inputs and outcomes, no combo is evaluated twice,
    and [previous_sets] grows by exactly the combos evaluated, in order. *)
Theorem harmonize_twice_no_duplicate_combo distilled1 distilled2 st :
  let st1 := (harmonize of_str hemisphere_source distilled1 st).2 in
  let st2 := (harmonize of_str hemisphere_source distilled2 st1).2 in
  ∃ l1 l2,
    cycle_log st1 = cycle_log st ++ l1 ∧
    cycle_log st2 = cycle_log st1 ++ l2 ∧
    NoDup (cr_combo <$> (l1 ++ l2)) ∧
    previous_sets st2 = previous_sets st ++ (cr_combo <$> (l1 ++ l2)).
Proof.
  intros st1 st2.
  destruct (harmonize_extends distilled1 st) as (l1 & Hext1).
  destruct (harmonize_extends distilled2 st1) as (l2 & Hext2).
  fold st1 in Hext1. fold st2 in Hext2.
  pose proof (extends_trans _ _ _ _ _ Hext1 Hext2)
    as (_ & _ & _ & _ & Hprev & Hnd & _).
  exists l1, l2. split; [apply Hext1|]. split; [apply Hext2|]. done.
Qed.

(** A vault without philosophers makes the first selection raise
    [IndexError], and one with philosophers but fewer than five logic
    seeds [ValueError]: [harmonize] raises before any evaluation, with
    [previous_sets] as it was. *)
Theorem harmonize_raises_on_small_vault distilled st :
  philosophers (vault st) = [] ∨ length (logic_seeds (vault st)) < 5 →
  rng st ≠ [] → 1 ≤ base_cycles st →
  ∃ st',
    harmonize of_str hemisphere_source distilled st
      = (Raise (if decide (philosophers (vault st) = [])
                then IndexError else ValueError), st') ∧
    cycle_log st' = cycle_log st ∧ previous_sets st' = previous_sets st.
Proof.
  intros Hsmall Hrng Hbase. unfold harmonize, mbind, M_bind. simpl.
  destruct (base_cycles st) as [|base] eqn:Hb; [lia|]. simpl.
  unfold mbind, M_bind, primary_cycle at 1, mbind, M_bind, _pick_unique_seedset.
  destruct (rng st) as [|d rng'] eqn:Hr; [done|]. simpl.
  unfold random_choice, random_sample.
  destruct (philosophers (vault st)) as [|p ps] eqn:Hp.
  - case_decide as H; [|by destruct H]. by eexists.
  - destruct Hsmall as [|Hl]; [done|].
    repeat case_decide; try done; try lia. by eexists.
Qed.
End Facts.
End HemisphereHistory.

(** ** The final harmonizer: failed queries and local resolution *)

Module FinalEscalation.
Import Final FinalFacts.
Section Facts.
Context {World Time Distilled Verdict : Type}.
Variable of_str : string → Verdict.
Variable time_time : World → Time * World.
Local Abbreviation state := (Final.state World Time Distilled Verdict).
Implicit Types (st : state) (l : list (CycleRecord Verdict)).








(** A verdict the vault resolves ends the run without Ollama.  When the
    run reaches conflict cycle [c] and the verdict of that cycle is
    resolved, [harmonize] returns the reflection of that verdict with
    status ["resolved"] and [cycles = primary_cycles + c], and the world is
    the one the evaluation left, touched by the reflection only: no health
    check and no query is made, whatever the engine would answer. *)
Theorem harmonize_conflict_resolved left_verdict right_verdict distilled st c
    s1 s2 s3 philosopher logic_set verdict w1 :
  let fused := {| left := left_verdict; right := right_verdict;
                  distilled := distilled |} in
  for_cycles (seq 1 (primary_cycles st)) (primary_cycle time_time fused) st
    = (Ok None, s1) →
  1 ≤ c ≤ conflict_cycles st →
  for_cycles (seq 1 (c - 1))
    (conflict_cycle of_str time_time left_verdict right_verdict fused) s1
    = (Ok None, s2) →
  _pick_unique_seedset s2 = (Ok (philosopher, logic_set), s3) →
  evaluate (vault st) fused philosopher logic_set (world s3) = (verdict, w1) →
  is_resolved (vault st) verdict = true →
  let result := {| source := "Final_Core"; verdict := verdict;
                   cycles := Some (primary_cycles st + c);
                   status := resolved; ollama_model := None |} in
  ∃ st',
    harmonize of_str time_time left_verdict right_verdict distilled st
      = (Ok (Thinker.reflect time_time result (thinker s3) w1).1.1, st') ∧
    world st' = (Thinker.reflect time_time result (thinker s3) w1).2.
Proof.
  intros fused Hprimary Hc Hconflict Hpick Heval Hres result.
  pose proof (preserves_for_cycles _ (seq 1 (primary_cycles st))
                (preserves_primary_cycle time_time fused) st) as Hfr1.
  pose proof (preserves_for_cycles _ (seq 1 (c - 1))
                (preserves_conflict_cycle of_str time_time
                   left_verdict right_verdict fused) s1) as Hfr2.
  pose proof (preserves_pick s2) as Hfr3.
  rewrite Hprimary in Hfr1. rewrite Hconflict in Hfr2. rewrite Hpick in Hfr3.
  simpl in *.
  pose proof (frame_trans _ _ _ (frame_trans _ _ _ Hfr1 Hfr2) Hfr3)
    as (Hv & Hpc & Hcc & Ho).
  unfold harmonize, mbind at 1 2, M_bind at 1 2. simpl. fold fused.
  rewrite Hprimary. unfold mbind at 1 2, M_bind at 1 2. simpl.
  replace (seq 1 (conflict_cycles s1))
    with (seq 1 (c - 1) ++ c :: seq (S c) (conflict_cycles st - c)).
  2:{ destruct Hfr1 as (_ & _ & -> & _).
      replace (conflict_cycles st) with ((c - 1) + S (conflict_cycles st - c))
        at 2 by lia.
      rewrite seq_app. simpl. do 3 f_equal; lia. }
  rewrite for_cycles_app, Hconflict. simpl.
  unfold mbind at 1, M_bind at 1. unfold conflict_cycle at 1.
  unfold mbind, M_bind. rewrite Hpick.
  unfold vault_evaluate. rewrite Hv, Heval. simpl. rewrite Hres. simpl.
  unfold thinker_reflect. simpl. rewrite Hpc. fold result.
  destruct (Thinker.reflect _ _ _ _) as [[refined th] w]. simpl.
  by eexists.
Qed.

(** The same in a primary cycle: when the run reaches primary cycle [k]
    and its verdict is resolved, [harmonize] returns the reflection of
    that verdict with status ["resolved"] and [cycles = k]. *)
Theorem harmonize_primary_resolved left_verdict right_verdict distilled st k
    s1 s2 philosopher logic_set verdict w1 :
  let fused := {| left := left_verdict; right := right_verdict;
                  distilled := distilled |} in
  1 ≤ k ≤ primary_cycles st →
  for_cycles (seq 1 (k - 1)) (primary_cycle time_time fused) st
    = (Ok None, s1) →
  _pick_unique_seedset s1 = (Ok (philosopher, logic_set), s2) →
  evaluate (vault st) fused philosopher logic_set (world s2) = (verdict, w1) →
  is_resolved (vault st) verdict = true →
  let result := {| source := "Final_Core"; verdict := verdict;
                   cycles := Some k; status := resolved;
                   ollama_model := None |} in
  ∃ st',
    harmonize of_str time_time left_verdict right_verdict distilled st
      = (Ok (Thinker.reflect time_time result (thinker s2) w1).1.1, st') ∧
    world st' = (Thinker.reflect time_time result (thinker s2) w1).2.
Proof.
  intros fused Hk Hprimary Hpick Heval Hres result.
  pose proof (preserves_for_cycles _ (seq 1 (k - 1))
                (preserves_primary_cycle time_time fused) st) as Hfr1.
  pose proof (preserves_pick s1) as Hfr2.
  rewrite Hprimary in Hfr1. rewrite Hpick in Hfr2. simpl in *.
  pose proof (frame_trans _ _ _ Hfr1 Hfr2) as (Hv & Hpc & Hcc & Ho).
  unfold harmonize, mbind at 1 2, M_bind at 1 2. simpl. fold fused.
  replace (seq 1 (primary_cycles st))
    with (seq 1 (k - 1) ++ k :: seq (S k) (primary_cycles st - k)).
  2:{ replace (primary_cycles st) with ((k - 1) + S (primary_cycles st - k))
        at 2 by lia.
      rewrite seq_app. simpl. do 3 f_equal; lia. }
  rewrite for_cycles_app, Hprimary. simpl.
  unfold mbind at 1, M_bind at 1. unfold primary_cycle at 1.
  unfold mbind, M_bind. rewrite Hpick.
  unfold vault_evaluate. rewrite Hv, Heval. simpl. rewrite Hres. simpl.
  unfold thinker_reflect. simpl. fold result.
  destruct (Thinker.reflect _ _ _ _) as [[refined th] w]. simpl.
  by eexists.
Qed.
End Facts.
End FinalEscalation.

(** ** The history of the final harmonizer *)

Module FinalHistory.
Import Final FinalFacts FinalRuns.
Section Facts.
Context {World Time Distilled Verdict : Type}.
Variable of_str : string → Verdict.
Variable time_time : World → Time * World.
Local Abbreviation state := (Final.state World Time Distilled Verdict).
Implicit Types (st : state) (l : list (CycleRecord Verdict)).

(** From [st] to [st'] the evaluations [l] were made, each on a combo that
    was new. *)
Definition grows st l st' : Prop :=
  cycle_log st' = cycle_log st ++ l ∧
  previous_sets st' = previous_sets st ++ (cr_combo <$> l) ∧
  NoDup (cr_combo <$> l) ∧
  Forall (λ c, c ∉ previous_sets st) (cr_combo <$> l).

Lemma grows_nil st st' :
  cycle_log st' = cycle_log st → previous_sets st' = previous_sets st →
  grows st [] st'.
Proof.
  intros. repeat split; simpl; rewrite ?app_nil_r; try done. constructor.
Qed.

Lemma grows_trans st l1 st1 l2 st2 :
  grows st l1 st1 → grows st1 l2 st2 → grows st (l1 ++ l2) st2.
Proof.
  intros (Hl1 & Hp1 & Hn1 & Hf1) (Hl2 & Hp2 & Hn2 & Hf2).
  rewrite Hp1 in Hf2. unfold grows. rewrite fmap_app.
  repeat split.
  - by rewrite Hl2, Hl1, app_assoc.
  - by rewrite Hp2, Hp1, app_assoc.
  - apply NoDup_app. repeat split; try done.
    intros c Hc1' Hc2'. rewrite Forall_forall in Hf2.
    apply (Hf2 c Hc2'), elem_of_app. by right.
  - apply Forall_app. split; [done|].
    eapply Forall_impl; [exact Hf2|]. intros c Hc Hc'.
    apply Hc, elem_of_app. by left.
Qed.

(** What makes no evaluation and no selection. *)
Definition steady {A} (m : M state A) : Prop :=
  ∀ st, cycle_log (m st).2 = cycle_log st ∧
        previous_sets (m st).2 = previous_sets st.

Lemma steady_ret {A} (a : A) : steady (mret a).
Proof. done. Qed.

Lemma steady_gets {A} (f : state → A) : steady (gets f).
Proof. done. Qed.

Lemma steady_bind {A B} (m : M state A) (f : A → M state B) :
  steady m → (∀ a, steady (f a)) → steady (m ≫= f).
Proof.
  intros Hm Hf st. unfold mbind, M_bind. destruct (Hm st) as [Hl Hp].
  destruct (m st) as [[a|e|] st1]; simpl in *; try done.
  destruct (Hf a st1) as [Hl' Hp']. split; congruence.
Qed.

Lemma steady_reflect result : steady (thinker_reflect time_time result).
Proof.
  intros st. unfold thinker_reflect.
  by destruct (Thinker.reflect _ _ _ _) as [[refined th] w].
Qed.

Lemma steady_health_check : steady ollama_health_check.
Proof. intros st. unfold ollama_health_check. by destruct (health_check _ _). Qed.

Lemma steady_query prompt : steady (ollama_query prompt).
Proof. intros st. unfold ollama_query. by destruct (query _ _ _). Qed.

Ltac steady :=
  repeat first
    [ apply steady_ret | apply steady_gets | apply steady_reflect
    | apply steady_health_check | apply steady_query
    | apply steady_bind; [|intros ?]
    | match goal with |- steady (match ?x with _ => _ end) => destruct x end
    | match goal with |- steady (if ?x then _ else _) => destruct x end ].

(** A selection followed by the evaluation of what it selected, and then
    by steps that select and evaluate nothing. *)
Lemma select_evaluate_grows {A} fused (rest : string → list string → Verdict → M state A) st :
  (∀ philosopher logic_set verdict, steady (rest philosopher logic_set verdict)) →
  ∃ l, grows st l
         (('(philosopher, logic_set) ← _pick_unique_seedset;
           verdict ← vault_evaluate fused philosopher logic_set;
           rest philosopher logic_set verdict) st).2.
Proof.
  intros Hrest. unfold mbind at 1, M_bind at 1, _pick_unique_seedset.
  pose proof (seedset_loop_previous (philosophers (vault st))
                (logic_seeds (vault st)) (previous_sets st) (rng st)) as H.
  destruct (seedset_loop _ _ _ _) as [[[[philosopher logic_set]|e|] prev'] rng'].
  - destruct H as [Hc ->]. unfold mbind, M_bind, vault_evaluate. simpl.
    destruct (evaluate _ _ _ _ _) as [verdict world'].
    match goal with |- context [rest ?p ?s ?v ?st1] =>
      destruct (Hrest p s v st1) as [Hl Hp]
    end.
    exists [{| cr_combo := (philosopher, logic_set); cr_verdict := verdict |}].
    unfold grows. rewrite Hl, Hp. simpl.
    repeat split; try done; [apply NoDup_singleton|by repeat constructor].
  - subst. exists []. by apply grows_nil.
  - subst. exists []. by apply grows_nil.
Qed.

Lemma primary_cycle_grows fused cycle st :
  ∃ l, grows st l (primary_cycle time_time fused cycle st).2.
Proof.
  unfold primary_cycle. apply select_evaluate_grows. intros. steady.
Qed.

Lemma conflict_cycle_grows left_verdict right_verdict fused conflict st :
  ∃ l, grows st l
         (conflict_cycle of_str time_time left_verdict right_verdict fused
            conflict st).2.
Proof.
  unfold conflict_cycle, ollama_enhancement.
  apply select_evaluate_grows. intros. steady.
Qed.

Lemma for_cycles_grows {R} (body : nat → M state (option R)) range st :
  (∀ i st, ∃ l, grows st l (body i st).2) →
  ∃ l, grows st l (for_cycles range body st).2.
Proof.
  intros Hbody. revert st. induction range as [|i range IH]; intros st; simpl.
  { exists []. by apply grows_nil. }
  unfold mbind, M_bind. destruct (Hbody i st) as (l1 & H1).
  destruct (body i st) as [[[r|]|e|] st1]; simpl in *; eauto.
  destruct (IH st1) as (l2 & H2). exists (l1 ++ l2). by eapply grows_trans.
Qed.

Lemma harmonize_grows left_verdict right_verdict distilled st :
  ∃ l, grows st l
         (harmonize of_str time_time left_verdict right_verdict distilled st).2.
Proof.
  unfold harmonize, mbind, M_bind. simpl.
  set (fused := {| left := left_verdict; right := right_verdict;
                   distilled := distilled |}).
  destruct (for_cycles_grows _ (seq 1 (primary_cycles st)) st
              (primary_cycle_grows fused)) as (l1 & H1).
  destruct (for_cycles _ _ st) as [[[r|]|e|] st1]; simpl in *; eauto.
  destruct (for_cycles_grows _ (seq 1 (conflict_cycles st1)) st1
              (conflict_cycle_grows left_verdict right_verdict fused))
    as (l2 & H2).
  destruct (for_cycles _ _ st1) as [[[r|]|e|] st2]; simpl in *;
    try (exists (l1 ++ l2); by eapply grows_trans).
  destruct (steady_reflect
    {| source := "Final_Core";
       verdict := of_str "UNRESOLVED_RETURN_TO_RESONATOR";
       cycles := None; status := unresolved; ollama_model := None |} st2)
    as [Hl Hp].
  exists (l1 ++ l2). eapply grows_trans; [exact H1|].
  destruct H2 as (Hl2 & Hp2 & Hn2 & Hf2).
  unfold grows. by rewrite Hl, Hp.
Qed.

(** The final harmonizer never evaluates a combo twice in its life.  Over
    any calls of [harmonize] in a row, whatever they return or raise, the
    combos passed to [vault.evaluate] are pairwise different and none was
    in [previous_sets] before, and [previous_sets] has grown by them, in
    order. *)
Theorem harmonize_all_no_duplicate_combo
    (inputs : list (Verdict * Verdict * Distilled)) st :
  let st' := (harmonize_all of_str time_time inputs st).2 in
  ∃ l, cycle_log st' = cycle_log st ++ l ∧
       previous_sets st' = previous_sets st ++ (cr_combo <$> l) ∧
       NoDup (cr_combo <$> l) ∧
       ∀ cr, cr ∈ l → cr_combo cr ∉ previous_sets st.
Proof.
  cbv zeta.
  assert (∃ l, grows st l (harmonize_all of_str time_time inputs st).2)
    as (l & Hl & Hp & Hn & Hf).
  { revert st. induction inputs as [|[[left_verdict right_verdict] distilled]
                                     inputs IH]; intros st; simpl.
    { exists []. by apply grows_nil. }
    destruct (harmonize_grows left_verdict right_verdict distilled st)
      as (l1 & H1).
    destruct (harmonize _ _ _ _ _ st) as [r st1]. simpl in H1.
    destruct (IH st1) as (l2 & H2).
    destruct (harmonize_all _ _ inputs st1) as [rs st2]. simpl in H2.
    destruct r; simpl; eauto using grows_trans. }
  exists l. repeat split; try done.
  intros cr Hcr. rewrite Forall_forall in Hf. apply Hf.
  by apply list_elem_of_fmap_2.
Qed.
End Facts.
End FinalHistory.

(** ** The pyramid on inputs of any length *)

Module PyramidFacts.
Import Resonator ResonatorFacts.
Local Open Scope Q_scope.

Lemma slice_take {A} (a b n : nat) (values : list A) :
  (b ≤ n)%nat → slice a b (take n values) = slice a b values.
Proof.
  intros Hb. unfold slice. apply list_eq. intros i.
  destruct (decide (i < b - a)%nat) as [Hi|Hi].
  - rewrite !lookup_take_lt, !lookup_drop by done. apply lookup_take_lt. lia.
  - by rewrite !lookup_take_ge by lia.
Qed.

(** Only the first 2340 values reach the pyramid; the two mid-tier nodes
    carry the same value, the mean of the nodes 6, 5 and 4, and the final
    node carries it too. *)
Theorem fan_pass_nodes (values : list Q) :
  _fan_pass values = _fan_pass (take 2340 values) ∧
  out3 (_fan_pass values) = out2 (_fan_pass values) ∧
  out1 (_fan_pass values) == out2 (_fan_pass values) ∧
  out2 (_fan_pass values)
    == (out4 (_fan_pass values) + out5 (_fan_pass values)
        + out6 (_fan_pass values)) / 3.
Proof.
  split; [|split; [done|split]].
  - unfold _fan_pass. by rewrite !slice_take by lia.
  - unfold _fan_pass. cbv zeta. cbn [out1 out2]. rewrite aggregate_two. field.
  - unfold _fan_pass. cbv zeta. cbn [out2 out4 out5 out6].
    by rewrite aggregate_three.
Qed.

(** A node whose slice is empty carries 1: on at most 780 values the
    nodes 5 and 4 carry 1 and the final node is [(mean + 1 + 1) / 3], and 1
    when there is no value at all. *)
Theorem fan_pass_short_input (values : list Q) :
  (length values ≤ 780)%nat →
  out6 (_fan_pass values) = aggregate values ∧
  out5 (_fan_pass values) = 1 ∧ out4 (_fan_pass values) = 1 ∧
  out1 (_fan_pass values) == (aggregate values + 2) / 3 ∧
  (values = [] → out1 (_fan_pass values) == 1).
Proof.
  intros Hlen.
  assert (slice 0 780 values = values) as E6.
  { unfold slice. rewrite drop_0. apply take_ge. lia. }
  assert (slice 780 1560 values = []) as E5.
  { unfold slice. rewrite drop_ge by lia. apply take_nil. }
  assert (slice 1560 2340 values = []) as E4.
  { unfold slice. rewrite drop_ge by lia. apply take_nil. }
  assert (out1 (_fan_pass values) == (aggregate values + 2) / 3) as E1.
  { unfold _fan_pass. cbv zeta. cbn [out1].
    rewrite aggregate_two, aggregate_three, E6, E5, E4.
    change (aggregate []) with 1. field. }
  split; [by unfold _fan_pass; cbv zeta; cbn [out6]; rewrite E6|].
  split; [by unfold _fan_pass; cbv zeta; cbn [out5]; rewrite E5|].
  split; [by unfold _fan_pass; cbv zeta; cbn [out4]; rewrite E4|].
  split; [exact E1|].
  intros ->. rewrite E1. reflexivity.
Qed.
End PyramidFacts.

(** ** The bank of synapses, mode by mode *)

Module BankFacts.
Import Resonator ResonatorFacts.
Local Open Scope Q_scope.

(** The values [resonate] fires. *)
Definition fired (synapses : list Synapse) (stimulus_value : Q)
    (random : nat → Q) : list Q :=
  imap (λ i syn, fire syn stimulus_value (random i)) synapses.











Section Bank.
Variable hemisphere : string.
Variable read_seed : string → Seed.
Variable shuffle : list Synapse → list Synapse.
Hypothesis shuffle_Permutation : ∀ l, shuffle l ≡ₚ l.

Let self : SynapticResonator := __init__ hemisphere read_seed shuffle.





End Bank.
End BankFacts.

(** ** The vault files *)

Module VaultFiles.
Import Resonator ResonatorFacts ResonatorLog.

(** *** The seeds *)

Section Seeds.
Local Open Scope Q_scope.

End Seeds.

(** *** The record ids *)

(** The number a string of digits denotes. *)
Definition number (s : string) : option nat :=
  Nat.of_uint <$> NilEmpty.uint_of_string s.

Lemma uint_of_string_zeros (k : nat) (s : string) :
  NilEmpty.uint_of_string (zeros k s)
    = Nat.iter k Decimal.D0 <$> NilEmpty.uint_of_string s.
Proof.
  induction k as [|k IH]; simpl.
  - by destruct (NilEmpty.uint_of_string s).
  - rewrite IH. by destruct (NilEmpty.uint_of_string s).
Qed.

Lemma of_uint_zeros (k : nat) (d : Decimal.uint) :
  Nat.of_uint (Nat.iter k Decimal.D0 d) = Nat.of_uint d.
Proof. induction k as [|k IH]; [done|]. simpl. exact IH. Qed.

Lemma number_format_06d (n : nat) : number (format_06d n) = Some n.
Proof.
  unfold number, format_06d, zfill. rewrite uint_of_string_zeros.
  assert (NilEmpty.uint_of_string (str n) = Some (Nat.to_uint n)
          ∨ (NilEmpty.uint_of_string (str n) = Some (Decimal.D0 Decimal.Nil)
             ∧ Nat.to_uint n = Decimal.Nil)) as [E|[E Hnil]].
  { unfold str, NilZero.string_of_uint.
    destruct (Nat.to_uint n) eqn:Hn; try (left; rewrite <- Hn; apply NilEmpty.usu).
    by right. }
  - rewrite E. simpl. by rewrite of_uint_zeros, DecimalNat.Unsigned.of_to.
  - rewrite E. simpl. rewrite of_uint_zeros.
    by rewrite <- (DecimalNat.Unsigned.of_to n), Hnil.
Qed.

Lemma format_06d_inj (a b : nat) : format_06d a = format_06d b → a = b.
Proof.
  intros E. pose proof (number_format_06d a) as Ha.
  rewrite E, number_format_06d in Ha. by injection Ha.
Qed.

Lemma string_length_app (s1 s2 : string) :
  String.length (s1 +:+ s2) = String.length s1 + String.length s2.
Proof.
  induction s1 as [|c s1 IH]; [done|].
  change (S (String.length (s1 +:+ s2))
          = S (String.length s1) + String.length s2). by rewrite IH.
Qed.

Lemma string_app_inv_tail (s1 s2 s : string) :
  s1 +:+ s = s2 +:+ s → s1 = s2.
Proof.
  revert s2. induction s1 as [|c1 s1 IH]; intros [|c2 s2] E.
  - done.
  - apply (f_equal String.length) in E.
    rewrite !string_length_app in E. simpl in E. lia.
  - apply (f_equal String.length) in E.
    rewrite !string_length_app in E. simpl in E. lia.
  - change (String c1 (s1 +:+ s) = String c2 (s2 +:+ s)) in E.
    injection E as -> E. f_equal. by apply IH.
Qed.

Lemma reflection_path_rid_inj (hemisphere : string) (a b : nat) :
  reflection_path (rid hemisphere a) = reflection_path (rid hemisphere b) →
  a = b.
Proof.
  unfold reflection_path, rid. intros E.
  apply String.app_inj, string_app_inv_tail in E.
  apply String.app_inj, String.app_inj in E. by apply format_06d_inj.
Qed.

(** *** The log *)

Section Log.
Context {Data : Type}.
Implicit Types (traces : list Data) (files : gmap string Data).

Lemma logs_cons data traces self files :
  logs (data :: traces) self files
    = logs traces (_log data self files).1 (_log data self files).2.
Proof. reflexivity. Qed.

Lemma logs_ref_count traces self files :
  ref_count (logs traces self files).1 = ref_count self + length traces ∧
  hemisphere (logs traces self files).1 = hemisphere self.
Proof.
  revert self files. induction traces as [|data traces IH]; intros self files.
  - simpl. split; [lia|done].
  - rewrite logs_cons.
    destruct (IH (_log data self files).1 (_log data self files).2)
      as [-> ->]. simpl. split; [lia|done].
Qed.

Lemma logs_other traces self files (path : string) :
  (∀ k, k < length traces →
     path ≠ reflection_path (rid (hemisphere self) (ref_count self + k))) →
  (logs traces self files).2 !! path = files !! path.
Proof.
  revert self files.
  induction traces as [|data traces IH]; intros self files Hpath; [done|].
  rewrite logs_cons, IH.
  - simpl. unfold write_reflection. rewrite lookup_insert_ne; [done|].
    intros <-. apply (Hpath 0); [simpl; lia|]. by rewrite Nat.add_0_r.
  - intros k Hk. simpl.
    replace (ref_count self + 1 + k) with (ref_count self + S k) by lia.
    apply Hpath. simpl. lia.
Qed.

Lemma logs_lookup traces self files (k : nat) :
  (logs traces self files).2
    !! reflection_path (rid (hemisphere self) (ref_count self + k))
  = traces !! k
    ∪ files !! reflection_path (rid (hemisphere self) (ref_count self + k)).
Proof.
  revert self files k.
  induction traces as [|data traces IH]; intros self files k.
  - simpl. by rewrite (left_id None _).
  - rewrite logs_cons. destruct k as [|k].
    + rewrite Nat.add_0_r, logs_other.
      * simpl. unfold write_reflection. rewrite lookup_insert_eq.
        by destruct (files !! _).
      * intros j Hj E. simpl in E.
        apply reflection_path_rid_inj in E. lia.
    + specialize (IH (_log data self files).1 (_log data self files).2 k).
      simpl in IH. replace (ref_count self + S k) with (ref_count self + 1 + k)
        by lia.
      simpl. rewrite IH. unfold write_reflection.
      rewrite lookup_insert_ne; [done|].
      intros E. apply reflection_path_rid_inj in E. lia.
Qed.

(** Records are kept.  After any number of calls of [_log] the record
    with the number [ref_count + k] holds the trace of call [k], the files
    of no call are as before, and the counter has advanced by the number
    of calls: no call replaces the record of another call of the same
    resonator, also past the six digits of the format. *)
Theorem logs_keep_records traces self files :
  ref_count (logs traces self files).1 = ref_count self + length traces ∧
  (∀ k,
     (logs traces self files).2
       !! reflection_path (rid (hemisphere self) (ref_count self + k))
     = traces !! k
       ∪ files !! reflection_path (rid (hemisphere self) (ref_count self + k))) ∧
  (∀ path,
     (∀ k, k < length traces →
        path ≠ reflection_path (rid (hemisphere self) (ref_count self + k))) →
     (logs traces self files).2 !! path = files !! path).
Proof.
  split; [apply logs_ref_count|]. split; [apply logs_lookup|apply logs_other].
Qed.

(** A resonator built again counts from 0 again.  When a resonator has
    logged [traces1] and a second one of the same hemisphere, built by
    [__init__] as the first, logs [traces2], record [k] holds the trace
    [k] of the second, and that of the first only where the second has
    none. *)
Theorem logs_restart_overwrites hemisphere read_seed1 shuffle1 read_seed2
    shuffle2 traces1 traces2 files (k : nat) :
  let first := __init__ hemisphere read_seed1 shuffle1 in
  let second := __init__ hemisphere read_seed2 shuffle2 in
  let files1 := (logs traces1 first files).2 in
  let files2 := (logs traces2 second files1).2 in
  files2 !! reflection_path (rid hemisphere k)
  = traces2 !! k ∪ traces1 !! k ∪ files !! reflection_path (rid hemisphere k).
Proof.
  intros first second files1 files2.
  pose proof (logs_lookup traces2 second files1 k) as E2.
  pose proof (logs_lookup traces1 first files k) as E1.
  unfold first, second in E1, E2. cbn [Resonator.hemisphere ref_count __init__] in E1, E2.
  change (0 + k) with k in *. fold first second in E1, E2.
  fold files1 in E1. fold files2 in E2. rewrite E2, E1.
  by destruct (traces2 !! k), (traces1 !! k), (files !! _).
Qed.
End Log.
End VaultFiles.

(** ** The vocal interpreter *)

Module ArticulatorFacts.
Import Stdlib.Strings.Ascii Articulator.

Lemma last_char_app (s : string) (c : ascii) :
  last_char (s +:+ String c EmptyString) = Some c.
Proof.
  induction s as [|c' s IH]; [done|].
  change (last_char (String c' (s +:+ String c EmptyString)) = Some c).
  simpl. rewrite IH. by destruct (s +:+ String c EmptyString) eqn:E;
    [destruct s; discriminate E|].
Qed.

Lemma last_char_nonempty (s : string) : s ≠ EmptyString → is_Some (last_char s).
Proof.
  induction s as [|c s IH]; [done|]. intros _. simpl.
  destruct s as [|c' s]; [by eexists|]. by apply IH.
Qed.

Section Facts.
Context {World Time Verdict : Type}.
Variable isspace : ascii → bool.
Variable repr : value Time Verdict → string.
Variable query : Prompt → World → Final.QueryOutcome * World.

(** Whatever the model answered, the cleaned text is not empty and ends
    with a full stop, an exclamation mark or a question mark. *)
Theorem clean_articulation_punctuated (raw_text : string) :
  _clean_articulation isspace raw_text ≠ EmptyString ∧
  ∃ c, last_char (_clean_articulation isspace raw_text) = Some c ∧
       c ∈ ["."; "!"; "?"]%char.
Proof.
  assert (∃ c, last_char (_clean_articulation isspace raw_text) = Some c ∧
               c ∈ ["."; "!"; "?"]%char) as (c & Hlast & Hc).
  { unfold _clean_articulation.
    set (text := strip _ (strip _ (strip isspace raw_text))).
    case_decide as Hempty.
    { exists "."%char. split; [reflexivity|set_solver]. }
    unfold endswith. destruct (last_char text) as [c|] eqn:Hlast.
    - case_bool_decide as Hc; [by exists c|].
      exists "."%char. split; [apply last_char_app|set_solver].
    - destruct (last_char_nonempty text Hempty) as [c Hc]. congruence. }
  split; [|by exists c]. intros E. by rewrite E in Hlast.
Qed.

Lemma string_app_nonempty (c : ascii) (s1 s2 : string) :
  String c s1 +:+ s2 ≠ EmptyString.
Proof. done. Qed.

(** The four openings of a fallback articulation. *)
Definition openings : list string :=
  ["I have carefully considered this matter. ";
   "Based on my analysis, I conclude that ";
   "My assessment indicates that ";
   "After thorough evaluation, I determine that "].

Lemma fallback_articulation_opening (verdict : value Time Verdict) :
  ∃ opening, opening ∈ openings ∧
    _fallback_articulation repr verdict
      = opening +:+ _format_verdict repr verdict.
Proof.
  unfold _fallback_articulation. cbv zeta.
  set (n := String.length (str repr verdict) / 20).
  change (length _ - 1) with 3.
  assert (n `min` 3 ≤ 3) as Hle by lia.
  destruct (n `min` 3) as [|[|[|[|k]]]]; [..|lia];
    eexists; (split; [|reflexivity]); unfold openings; set_solver.
Qed.

(** [articulate] always gives something to say.  The spoken text is never
    empty: it is the model's answer cleaned, ending with a full stop, an
    exclamation mark or a question mark, when the query succeeds, and one
    of the four openings followed by the formatted verdict when the query
    fails or raises. *)
Theorem articulate_never_silent (verdict : value Time Verdict)
    (context : option (list (string * value Time Verdict))) (w : World) :
  let result := (articulate isspace repr query verdict context w).1 in
  spoken_text result ≠ EmptyString ∧
  (articulation_success result = true →
     ∃ c, last_char (spoken_text result) = Some c ∧ c ∈ ["."; "!"; "?"]%char) ∧
  (articulation_success result = false →
     ∃ opening, opening ∈ openings ∧
       spoken_text result = opening +:+ _format_verdict repr verdict).
Proof.
  unfold articulate. destruct (query _ w) as [[response model| |] w']; simpl.
  - destruct (clean_articulation_punctuated response) as [Hne Hlast].
    by repeat split.
  - destruct (fallback_articulation_opening verdict) as (o & Ho & E).
    split; [|split; [done|by exists o]].
    rewrite E. apply list_elem_of_In in Ho.
    by repeat destruct Ho as [<-|Ho].
  - destruct (fallback_articulation_opening verdict) as (o & Ho & E).
    split; [|split; [done|by exists o]].
    rewrite E. apply list_elem_of_In in Ho.
    by repeat destruct Ho as [<-|Ho].
Qed.
End Facts.
End ArticulatorFacts.

(** ** The speech pipeline *)

Module VoicePipelineFacts.
Import Stdlib.Strings.Ascii Articulator VoicePipeline.
Section Facts.
Context {World Time Distilled Verdict VoiceProfile Audio : Type}.
Local Abbreviation value := (Articulator.value Time Verdict).
Variable of_str : string → Verdict.
Variable time_time : World → Time * World.
Variable isspace : ascii → bool.
Variable repr : value → string.
Local Abbreviation t := (VoicePipeline.t (World:=World) (Time:=Time)
  (Distilled:=Distilled) (Verdict:=Verdict) (VoiceProfile:=VoiceProfile)
  (Audio:=Audio)).

(** The typed reflection of a harmonizer's result is the dict that
    [reflect] builds of the result's dict. *)
Lemma reflect_reflection_dict (result : HarmonizationResult Verdict)
    (th : Thinker.t Time) (w : World) :
  reflect time_time (result_dict result) th w
    = (reflection_dict (Thinker.reflect time_time result th w).1.1,
       (Thinker.reflect time_time result th w).1.2,
       (Thinker.reflect time_time result th w).2).
Proof.
  unfold reflect, Thinker.reflect.
  destruct (ISSBrainstem.pulse _ _ _) as [[p i] w1].
  by destruct (ISSBrainstem.stardate _ _) as [sd w2].
Qed.

(** [speak] loses what the harmonizer decided.  When [harmonize] returns,
    [speak] returns too, and its metadata carry no harmonizer status
    ([None]) whatever the outcome of the harmonization, for [harmonize]
    returns a reflection, which keeps the status two dicts down, under
    ["original"]; the confidence is the constant 0.95 of the thinker; the
    verdict text of the prompt sent to the model is the [str] of the whole
    reflection of the reflection, and its context text says that there is
    no context, whatever context [speak] was given.  When [harmonize]
    raises or does not return, so does [speak]. *)
Theorem speak_loses_status (left_verdict right_verdict : Verdict)
    (distilled : Distilled) (context : option (list (string * value)))
    (self : t) (w : World) :
  let w0 := (ISSBrainstem.stardate time_time w).2 in
  match Final.harmonize of_str time_time left_verdict right_verdict distilled
          (Final.set_world w0 (harmonizer self)) with
  | (Ok harmonized, h) =>
      let '(refined, _, w1) :=
        reflect time_time (reflection_dict harmonized) (thinker self)
          (Final.world h) in
      let prompt := {| verdict_text := repr refined;
                       context_text := "No additional context provided." |} in
      ∃ speech self' w',
        speak of_str time_time isspace repr left_verdict right_verdict
          distilled context self w = (Ok speech, self', w') ∧
        harmonizer_status speech = None ∧
        thinker_confidence speech = Some (FloatValue (95 # 100)%Q) ∧
        (original ← dict_get "original" refined;
         result ← dict_get "original" (original : value);
         dict_get "status" (result : value))
          = Some (StrValue (status_str (status (Thinker.original harmonized)))) ∧
        text speech
          = match (query (articulator self) prompt w1).1 with
            | Final.QuerySuccess response _ =>
                _clean_articulation isspace response
            | _ => _fallback_articulation repr refined
            end
  | (Raise e, h) =>
      ∃ self' w',
        speak of_str time_time isspace repr left_verdict right_verdict
          distilled context self w = (Raise e, self', w')
  | (Pending, h) =>
      ∃ self' w',
        speak of_str time_time isspace repr left_verdict right_verdict
          distilled context self w = (Pending, self', w')
  end.
Proof.
  unfold speak. destruct (ISSBrainstem.stardate time_time w) as [start w0].
  simpl. destruct (Final.harmonize _ _ _ _ _ _) as [[harmonized|e|] h].
  - unfold reflect.
    destruct (ISSBrainstem.pulse _ _ _) as [[p i] w1].
    destruct (ISSBrainstem.stardate _ _) as [sd w2].
    set (refined := DictValue _).
    unfold articulate.
    assert (_format_verdict repr refined = repr refined) as -> by done.
    change (_format_context repr None) with "No additional context provided.".
    destruct (query _ _ _) as [outcome w3] eqn:Hq.
    destruct outcome as [response model| |];
      destruct (text_only_mode self);
      try destruct (_synthesize_speech _ _ _ _) as [audio w4];
      destruct (ISSBrainstem.stardate _ _) as [stop w5];
      eexists _, _, _; (split; [reflexivity|]);
      (split; [reflexivity|]); (split; [reflexivity|]);
      (split; [|reflexivity]); simpl;
      by destruct (cycles (Thinker.original harmonized)).
  - by eexists _, _.
  - by eexists _, _.
Qed.
End Facts.
End VoicePipelineFacts.

(** ** The consent gate *)

Module IntentConsentFacts.
Import Stdlib.Strings.Ascii IntentConsent.

Lemma startswith_app (prefix rest : string) :
  startswith prefix (prefix +:+ rest) = true.
Proof.
  induction prefix as [|c prefix IH]; [done|].
  change (startswith (String c prefix) (String c (prefix +:+ rest)) = true).
  simpl. by rewrite decide_True.
Qed.

(** [needle in s] holds of every string that has the needle somewhere. *)
Lemma contains_app (before needle after : string) :
  contains needle (before +:+ needle +:+ after) = true.
Proof.
  induction before as [|c before IH].
  - change (contains needle (needle +:+ after) = true).
    destruct (needle +:+ after) eqn:E; simpl; rewrite <- E;
      by rewrite startswith_app.
  - change (contains needle (String c (before +:+ needle +:+ after)) = true).
    simpl. rewrite IH. apply orb_true_r.
Qed.

Lemma existsb_elem_of {A} (f : A → bool) (x : A) (l : list A) :
  x ∈ l → f x = true → existsb f l = true.
Proof.
  intros Hx Hf. apply existsb_exists. exists x.
  split; [by apply list_elem_of_In|done].
Qed.

Section Facts.
Context {World Time : Type}.
Variable time_time : World → Time * World.
Variable lower : string → string.
Variable isspace : ascii → bool.
Implicit Types (self : t Time) (context : option (gmap string context_value)).

(** What a call leaves alone and what it records.  [authorize] changes
    none of the four word lists and sets [last_check]; a refusal is always
    recorded, by one escalation whose reason is one of the three refusals
    followed by the intent as given; an authorization is recorded only
    when the intent is unknown. *)
Theorem authorize_denial_escalated (intent : string) context self (w : World) :
  let '(authorized, self', _) :=
    authorize time_time lower isspace intent context self w in
  safe_bases self' = safe_bases self ∧
  harmful_verbs self' = harmful_verbs self ∧
  protected_terms self' = protected_terms self ∧
  internal_terms self' = internal_terms self ∧
  last_check self' = Some (ISSBrainstem.stardate time_time w).1 ∧
  (authorized = false →
     ∃ e, escalations self' = escalations self ++ [e] ∧
          reason e ∈ ["Harmful intent: " +:+ intent;
                      "Unauthorized protected access: " +:+ intent;
                      "Internal function without SYSTEM context: " +:+ intent]) ∧
  (authorized = true →
     escalations self' = escalations self ∨
     ∃ e, escalations self' = escalations self ++ [e] ∧
          reason e = "Unknown intent allowed: " +:+ intent).
Proof.
  unfold authorize, _escalate.
  destruct (ISSBrainstem.stardate time_time w) as [sd w1]. cbv zeta.
  cbn [safe_bases harmful_verbs protected_terms internal_terms escalations
       last_check fst].
  repeat match goal with
  | |- context [if ?b then _ else _] => destruct b eqn:?
  end;
  try destruct (ISSBrainstem.stardate time_time w1) as [sd1 w2]; simpl;
  repeat split; try done; intros _;
  try (by left); try (right; by eexists);
  eexists; (split; [reflexivity|]); simpl; set_solver.
Qed.

(** Protected terms are looked for anywhere in the text.  An intent whose
    lowered and stripped text has a protected term somewhere, be it inside
    a word or after a safe verb, is refused and escalated, unless the
    context has the source ["SYSTEM"] and the text has an internal term. *)
Theorem authorize_protected_substring (intent before term after : string)
    context self (w : World) :
  term ∈ protected_terms self →
  Articulator.strip isspace (lower intent) = before +:+ term +:+ after →
  default ∅ context !! "source" ≠ Some (ContextStr "SYSTEM")
  ∨ existsb (λ t, contains t (before +:+ term +:+ after)) (internal_terms self)
    = false →
  let '(authorized, self', _) :=
    authorize time_time lower isspace intent context self w in
  authorized = false ∧ length (escalations self') = S (length (escalations self)).
Proof.
  intros Hterm Htext Hsystem. unfold authorize, _escalate.
  destruct (ISSBrainstem.stardate time_time w) as [sd w1]. cbv zeta.
  cbn [safe_bases harmful_verbs protected_terms internal_terms escalations
       last_check]. rewrite Htext.
  assert (existsb (λ t, contains t (before +:+ term +:+ after))
            (protected_terms self) = true) as Hprotected.
  { apply (existsb_elem_of _ term); [done|apply contains_app]. }
  destruct (bool_decide _ && _) eqn:Hoverride.
  { apply andb_true_iff in Hoverride as [Hsource Hinternal].
    apply bool_decide_eq_true in Hsource.
    destruct Hsystem as [Hsystem|Hsystem]; [done|congruence]. }
  destruct (existsb _ (harmful_verbs self)).
  - destruct (ISSBrainstem.stardate time_time w1) as [sd1 w2]. simpl.
    split; [done|]. rewrite length_app. simpl. lia.
  - rewrite Hprotected.
    destruct (ISSBrainstem.stardate time_time w1) as [sd1 w2]. simpl.
    split; [done|]. rewrite length_app. simpl. lia.
Qed.

(** The override comes first.  With the source ["SYSTEM"] in the context,
    an intent whose lowered and stripped text has an internal term
    somewhere is authorized without any escalation, whatever harmful verb
    or protected term it has besides. *)
Theorem authorize_system_override (intent before term after : string)
    context self (w : World) :
  default ∅ context !! "source" = Some (ContextStr "SYSTEM") →
  term ∈ internal_terms self →
  Articulator.strip isspace (lower intent) = before +:+ term +:+ after →
  let '(authorized, self', _) :=
    authorize time_time lower isspace intent context self w in
  authorized = true ∧ escalations self' = escalations self.
Proof.
  intros Hsource Hterm Htext. unfold authorize.
  destruct (ISSBrainstem.stardate time_time w) as [sd w1]. cbv zeta.
  cbn [internal_terms]. rewrite Htext.
  rewrite (bool_decide_eq_true_2 _ Hsource).
  rewrite (existsb_elem_of _ term _ Hterm (contains_app before term after)).
  done.
Qed.
End Facts.
End IntentConsentFacts.

(** ** The reasoning layers *)

Module HelixFacts.
Import Resonator.
Local Open Scope Q_scope.

Lemma uniform_range (a b r : Q) :
  0 <= r <= 1 → a <= b → a <= uniform a b r <= b.
Proof. unfold uniform. intros [Hr0 Hr1] Hab. split; nra. Qed.

Lemma weighted_range (weight lo hi u : Q) :
  0 <= weight → lo <= u <= hi → weight * lo <= weight * u <= weight * hi.
Proof. intros Hw [Hlo Hhi]. split; nra. Qed.

(** The a priori verdict does not look at its input.  It is the mean of
    four values, each a weight of a seed times a random number of a fixed
    interval: for weights that are not negative it lies between
    [(0.82 k + 0.80 l + 0.85 m + 0.83 g) / 4] and
    [(0.99 k + 0.97 l + 0.98 m + 0.97 g) / 4], whatever the packet that
    came from the resonator, and two packets give the same verdict on the
    same random numbers. *)
Theorem anterior_verdict_range {Packet : Type} (self : AnteriorHelix.t)
    (packet packet' : Packet) (random : nat → Q) :
  let k := default 1 (AnteriorHelix.kant self !! "ethics_weight"%string) in
  let l := default 1 (AnteriorHelix.locke self !! "empirical_factor"%string) in
  let m := default 1 (AnteriorHelix.monotonic self !! "stability_factor"%string) in
  let g := default 1 (AnteriorHelix.gladwell self !! "thin_slice_factor"%string) in
  (∀ i, 0 <= random i <= 1) →
  0 <= k → 0 <= l → 0 <= m → 0 <= g →
  AnteriorHelix.process self packet random
    = AnteriorHelix.process self packet' random ∧
  ((82 # 100) * k + (80 # 100) * l + (85 # 100) * m + (83 # 100) * g) / 4
    <= AnteriorHelix.final_apriori_verdict
         (AnteriorHelix.process self packet random)
    <= ((99 # 100) * k + (97 # 100) * l + (98 # 100) * m + (97 # 100) * g) / 4.
Proof.
  intros k l m g Hr Hk Hl Hm Hg. split; [done|].
  unfold AnteriorHelix.process, AnteriorHelix._combine. cbv zeta.
  cbn [AnteriorHelix.final_apriori_verdict].
  unfold AnteriorHelix._kant_reason, AnteriorHelix._locke_reason,
    AnteriorHelix._monotonic_reason, AnteriorHelix._gladwell_reason.
  cbv zeta. fold k l m g.
  pose proof (weighted_range k _ _ _ Hk
    (uniform_range (82 # 100) (99 # 100) _ (Hr 0%nat) ltac:(lra))) as Hkv.
  pose proof (weighted_range l _ _ _ Hl
    (uniform_range (80 # 100) (97 # 100) _ (Hr 1%nat) ltac:(lra))) as Hlv.
  pose proof (weighted_range m _ _ _ Hm
    (uniform_range (85 # 100) (98 # 100) _ (Hr 2%nat) ltac:(lra))) as Hmv.
  pose proof (weighted_range g _ _ _ Hg
    (uniform_range (83 # 100) (97 # 100) _ (Hr 3%nat) ltac:(lra))) as Hgv.
  unfold Qdiv. change (/ 4) with (1 # 4). lra.
Qed.

End HelixFacts.

(** ** Instances *)

Module ScenarioWitnesses.
Import Example Scenario.

Lemma detect_drift_interval_witness :
  let '(_, self1, w1) :=
    ISSBrainstemRest.detect_drift tick (1 # 4) iss100 100 in
  let '(_, self2, w2) :=
    ISSBrainstemRest.do_calls tick
      [ISSBrainstemRest.CallPulse; ISSBrainstemRest.CallStardate] self1 w1 in
  (ISSBrainstemRest.detect_drift tick (5 # 1) self2 w2).1.1
    = negb (Qle_bool (Qabs ((tick w2).1 - (tick 100).1)) (5 # 1)).
Proof.
  apply (ISSBrainstemRestFacts.detect_drift_interval tick (1 # 4) (5 # 1)
           [ISSBrainstemRest.CallPulse; ISSBrainstemRest.CallStardate]
           iss100 100).
  reflexivity.
Defined.

Lemma queue_stays_empty_witness :
  let '(rs, self', _) :=
    TaskOrchestratorRuns.calls time_time
      four_calls orchestrator world0 in
  TaskOrchestrator.queue self' = [] ∧
  Forall2 (λ c r,
      (c.1 = "queue" → r = Raise TypeError) ∧
      (c = ("next", []) → r = Ok (TaskOrchestrator.ReturnedItem ∅)))
    four_calls rs.
Proof.
  apply (TaskOrchestratorFacts.queue_stays_empty time_time
           four_calls orchestrator world0).
  reflexivity.
Defined.

Lemma harmonize_raises_on_small_vault_witness :
  ∃ st',
    Hemisphere.harmonize of_str "Left_Hemisphere" tt left_empty
      = (Raise IndexError, st') ∧
    Hemisphere.cycle_log st' = Hemisphere.cycle_log left_empty ∧
    Hemisphere.previous_sets st' = Hemisphere.previous_sets left_empty.
Proof.
  apply (HemisphereHistory.harmonize_raises_on_small_vault
           of_str "Left_Hemisphere" tt left_empty).
  - left. reflexivity.
  - vm_compute. discriminate.
  - vm_compute. lia.
Defined.


Lemma harmonize_conflict_resolved_witness :
  ∃ refined st',
    Final.harmonize of_str time_time "L" "R" tt final7 = (Ok refined, st') ∧
    Thinker.original refined =
      {| source := "Final_Core"; verdict := "YES";
         cycles := Some 7; status := resolved; ollama_model := None |} ∧
    queries (Final.world st') = 1.
Proof.
  edestruct (FinalEscalation.harmonize_conflict_resolved of_str time_time
               "L" "R" tt final7 2) as (st' & Hrun & Hworld).
  - vm_compute. reflexivity.
  - vm_compute. lia.
  - vm_compute. reflexivity.
  - vm_compute. reflexivity.
  - vm_compute. reflexivity.
  - vm_compute. reflexivity.
  - eexists _, st'. split; [exact Hrun|]. split; [reflexivity|].
    rewrite Hworld. vm_compute. reflexivity.
Defined.

Lemma harmonize_primary_resolved_witness :
  ∃ refined st',
    Final.harmonize of_str time_time "L" "R" tt final3 = (Ok refined, st') ∧
    Thinker.original refined =
      {| source := "Final_Core"; verdict := "YES";
         cycles := Some 3; status := resolved; ollama_model := None |}.
Proof.
  edestruct (FinalEscalation.harmonize_primary_resolved of_str time_time
               "L" "R" tt final3 3) as (st' & Hrun & Hworld).
  - vm_compute. lia.
  - vm_compute. reflexivity.
  - vm_compute. reflexivity.
  - vm_compute. reflexivity.
  - vm_compute. reflexivity.
  - eexists _, st'. split; [exact Hrun|]. reflexivity.
Defined.
End ScenarioWitnesses.

Module ResonatorScenarioWitnesses.
Import Resonator ResonatorExample.
Local Open Scope Q_scope.

Lemma fan_pass_short_input_witness :
  out6 (_fan_pass [1 # 2; 1 # 4]) = aggregate [1 # 2; 1 # 4] ∧
  out5 (_fan_pass [1 # 2; 1 # 4]) = 1 ∧ out4 (_fan_pass [1 # 2; 1 # 4]) = 1 ∧
  out1 (_fan_pass [1 # 2; 1 # 4]) == (aggregate [1 # 2; 1 # 4] + 2) / 3 ∧
  ([1 # 2; 1 # 4] = [] → out1 (_fan_pass [1 # 2; 1 # 4]) == 1).
Proof. apply (PyramidFacts.fan_pass_short_input [1 # 2; 1 # 4]). simpl. lia. Defined.



End ResonatorScenarioWitnesses.

Module TextWitnesses.
Import Example TextScenario.

Lemma authorize_protected_substring_witness :
  let '(authorized, self', _) :=
    IntentConsent.authorize time_time lower isspace "Explain the Cosmos"
      None gate world0 in
  authorized = false ∧
  length (IntentConsent.escalations self')
    = S (length (IntentConsent.escalations gate)).
Proof.
  apply (IntentConsentFacts.authorize_protected_substring time_time lower
           isspace "Explain the Cosmos" "explain the c" "os" "mos"
           None gate world0).
  - vm_compute. set_solver.
  - reflexivity.
  - left. vm_compute. discriminate.
Defined.

Lemma authorize_system_override_witness :
  let '(authorized, self', _) :=
    IntentConsent.authorize time_time lower isspace "delete SYSTEM logs"
      system_context gate world0 in
  authorized = true ∧
  IntentConsent.escalations self' = IntentConsent.escalations gate.
Proof.
  apply (IntentConsentFacts.authorize_system_override time_time lower
           isspace "delete SYSTEM logs" "delete " "system" " logs"
           system_context gate world0).
  - reflexivity.
  - vm_compute. set_solver.
  - reflexivity.
Defined.

Lemma anterior_verdict_range_witness :
  AnteriorHelix.process helix 1 (λ _, (1 # 3)%Q)
    = AnteriorHelix.process helix 2 (λ _, (1 # 3)%Q) ∧
  (((82 # 100) * 1 + (80 # 100) * 1 + (85 # 100) * 1 + (83 # 100) * 1) / 4
     <= AnteriorHelix.final_apriori_verdict
          (AnteriorHelix.process helix 1 (λ _, 1 # 3))
     <= ((99 # 100) * 1 + (97 # 100) * 1 + (98 # 100) * 1 + (97 # 100) * 1) / 4)%Q.
Proof.
  apply (HelixFacts.anterior_verdict_range helix 1 2 (λ _, (1 # 3)%Q)).
  - intros i. simpl. lra.
  - vm_compute. discriminate.
  - vm_compute. discriminate.
  - vm_compute. discriminate.
  - vm_compute. discriminate.
Defined.

End TextWitnesses.
